(** * Embedding of the batched chunk-embedding pipeline
    (src/surprise_models/generate_embeddings_batched.py).

    The model follows the script line by line:
    - frames are tensors with an explicit shape and a flat row-major pixel
      buffer of integers; [astype("uint8")] is written out as wrap-around
      modulo 256;
    - paths are lists of components, strings are Stdlib strings;
    - the source archives, the image processor, the vision tower and the
      failure behaviour of the encoder and of [save_file] are parameters of
      an environment record (they are external collaborators);
    - the loop body runs in a small state/exception monad over a world that
      holds the destination file system, the lines the script writes with
      [tqdm.write] and the input archives it has opened; Python exceptions
      are the [exn] constructors, with [is_Exception] telling which ones an
      [except Exception] clause catches. *)

From Stdlib Require Import ZArith Lia.
From stdpp Require Import base list gmap strings.
From Stdlib Require Import Ascii Sorted.

Local Open Scope Z_scope.

(* ------------------------------------------------------------------ *)
(** ** Python exceptions and fallible results *)

Inductive exn :=
  | StopIteration        (* next() on an exhausted generator *)
  | IndexError
  | ValueError
  | TypeError
  | OSError
  | RuntimeError
  | OutOfMemoryError     (* torch.cuda.OutOfMemoryError, a RuntimeError *)
  | KeyboardInterrupt    (* BaseException, not an Exception *)
  | SystemExit.          (* BaseException, not an Exception *)

(** Whether [except Exception] catches the exception. *)
Definition is_Exception (e : exn) : bool :=
  match e with
  | KeyboardInterrupt | SystemExit => false
  | _ => true
  end.

Inductive except (A : Type) :=
  | Ok (a : A)
  | Err (e : exn).
Arguments Ok {A} a.
Arguments Err {A} e.

Definition except_bind {A B} (m : except A) (k : A -> except B) : except B :=
  match m with
  | Ok a => k a
  | Err e => Err e
  end.

(* ------------------------------------------------------------------ *)
(** ** Tensors and frames *)

(** One frame [frame_data[i]]: its shape and its pixels in row-major order. *)
Record frame := mkFrame { fshape : list nat; fpix : list Z }.

(** [frame.ndim] *)
Definition ndim (f : frame) : nat := length (fshape f).

(** [frame.shape[-1]], which raises IndexError on a 0-d array. *)
Definition shape_last (s : list nat) : except nat :=
  match last s with
  | Some c => Ok c
  | None => Err IndexError
  end.

(** [.numpy().astype("uint8")]: a fresh copy, every value wrapped mod 256. *)
Definition astype_uint8 (f : frame) : frame :=
  mkFrame (fshape f) (map (fun z => z mod 256) (fpix f)).

(** Number of pixels (product of all but the last dimension). *)
Definition outer_size (s : list nat) : nat := foldr Nat.mul 1%nat (removelast s).

(** [frame[..., :3]] on the flat buffer: from each group of [c] channels keep
    the first three. *)
Fixpoint slice_channels (n c : nat) (px : list Z) : list Z :=
  match n with
  | O => []
  | S n' => take 3 px ++ slice_channels n' c (drop c px)
  end.

Definition strip_alpha (f : frame) : frame :=
  match last (fshape f) with
  | Some c => mkFrame (removelast (fshape f) ++ [Nat.min c 3])
                      (slice_channels (outer_size (fshape f)) c (fpix f))
  | None => f
  end.

(** A PIL image: it holds the array it was built from. *)
Record image := fromarray { img_array : frame }.

(** The modes PIL's [fromarray] type map gives a uint8 array ([typestr]
    "|u1"), keyed by [(1, 1) + shape[2:]]. *)
Inductive pil_mode := ModeL | ModeLA | ModeRGB | ModeRGBA.

Definition fromarray_mode (shape : list nat) : option pil_mode :=
  match drop 2 shape with
  | [] => Some ModeL
  | [2%nat] => Some ModeLA
  | [3%nat] => Some ModeRGB
  | [4%nat] => Some ModeRGBA
  | _ => None
  end.

(** [ndmax] of [fromarray]: 2 for "L", 3 for "RGB", 4 otherwise. *)
Definition ndmax (m : pil_mode) : nat :=
  match m with
  | ModeL => 2
  | ModeRGB => 3
  | ModeLA | ModeRGBA => 4
  end.

(** [Image.fromarray(frame)] on a uint8 array: TypeError ("Cannot handle
    this data type") when the type map has no mode for the shape, ValueError
    ("Too many dimensions") when the array has more than [ndmax]
    dimensions. *)
Definition Image_fromarray (a : frame) : except image :=
  match fromarray_mode (fshape a) with
  | None => Err TypeError
  | Some m => if Nat.ltb (ndmax m) (ndim a) then Err ValueError else Ok (fromarray a)
  end.

(* ------------------------------------------------------------------ *)
(** ** Frame Normalizer (lines 54-71) *)

Inductive drop_reason := Grayscale | UnexpectedChannels.

Inductive frame_record :=
  | Valid (img : image)
  | Dropped (reason : drop_reason).

(** The body of the per-frame loop for one frame [frame_data[i]]. *)
Definition classify (fi : frame) : except frame_record :=
  let frame := astype_uint8 fi in
  if Nat.eqb (ndim frame) 2 then Ok (Dropped Grayscale)
  else
    except_bind (shape_last (fshape frame)) (fun c =>
      if Nat.eqb c 4 then
        except_bind (Image_fromarray (strip_alpha frame)) (fun img => Ok (Valid img))
      else if negb (Nat.eqb c 3) then Ok (Dropped UnexpectedChannels)
      else except_bind (Image_fromarray frame) (fun img => Ok (Valid img))).

(** [for i in range(frame_data.shape[0])]: the pairs
    [(valid_indices[k], valid_images[k])] the loop builds; an exception aborts
    the loop. (The loop as the body runs it, with its messages, is
    [normalize_loop] below.) *)
Fixpoint normalize_from (i : nat) (frames : list frame) : except (list (nat * image)) :=
  match frames with
  | [] => Ok []
  | fi :: rest =>
      except_bind (classify fi) (fun r =>
        match r with
        | Dropped _ => normalize_from (S i) rest
        | Valid img =>
            except_bind (normalize_from (S i) rest) (fun vs => Ok ((i, img) :: vs))
        end)
  end.

Definition normalize (frame_data : list frame) : except (list (nat * image)) :=
  normalize_from 0 frame_data.

(* ------------------------------------------------------------------ *)
(** ** Paths (lines 39-44) *)

(** A [pathlib.Path] as its list of components. *)
Abbreviation path := (list string).

(** [str.replace(a, b)] for one-character [a] and [b]. *)
Fixpoint replace_char (a b : Ascii.ascii) (s : string) : string :=
  match s with
  | EmptyString => EmptyString
  | String c s' => String (if Ascii.eqb c a then b else c) (replace_char a b s')
  end.

Definition sanitize (s : string) : string := replace_char "|"%char "_"%char s.

(** [str(p)] for a relative path: components joined by "/", "." if empty. *)
Fixpoint join_slash (l : list string) : string :=
  match l with
  | [] => EmptyString
  | [x] => x
  | x :: l' => String.append x (String "/"%char (join_slash l'))
  end.

Definition str_of_path (p : path) : string :=
  match p with
  | [] => "."
  | _ => join_slash p
  end.

(** [Path(s)] for a relative string: split at "/", empty and "." parts dropped. *)
Definition push_part (part : string) (rest : list string) : list string :=
  if String.eqb part "" then rest
  else if String.eqb part "." then rest
  else part :: rest.

Fixpoint split_slash (s : string) : string * list string :=
  match s with
  | EmptyString => (EmptyString, [])
  | String c s' =>
      let '(cur, rest) := split_slash s' in
      if Ascii.eqb c "/"%char then (EmptyString, push_part cur rest)
      else (String c cur, rest)
  end.

Definition path_of_str (s : string) : path :=
  let '(cur, rest) := split_slash s in push_part cur rest.

(** [p.parent] *)
Definition parent (p : path) : path := removelast p.

(** [p.name] *)
Definition name (p : path) : string := default EmptyString (last p).

(** [str.rfind('.')] *)
Fixpoint rfind_dot (s : string) : option nat :=
  match s with
  | EmptyString => None
  | String c s' =>
      match rfind_dot s' with
      | Some i => Some (S i)
      | None => if Ascii.eqb c "."%char then Some O else None
      end
  end.

(** [p.stem]: [name[:i]] when [0 < i < len(name) - 1] for the last dot [i]. *)
Definition stem (p : path) : string :=
  let nm := name p in
  match rfind_dot nm with
  | Some i =>
      if Nat.ltb 0 i && Nat.ltb i (String.length nm - 1)
      then String.substring 0 i nm else nm
  | None => nm
  end.

(** [chunk_path.relative_to(BASE_DIR)] *)
Fixpoint relative_to (p base : path) : except path :=
  match base, p with
  | [], _ => Ok p
  | b :: base', x :: p' => if String.eqb b x then relative_to p' base' else Err ValueError
  | _ :: _, [] => Err ValueError
  end.

Definition SUFFIX : string := "_embedded.safetensors".

(** Lines 39-44: [(rel_path, chunk_name, output_dir, output_path)]. *)
Definition chunk_paths_of (BASE_DIR OUTPUT_DIR chunk_path : path)
    : except (path * string * path * path) :=
  except_bind (relative_to chunk_path BASE_DIR) (fun rel_path =>
    let safe_rel_path := path_of_str (sanitize (str_of_path rel_path)) in
    let chunk_name := sanitize (stem chunk_path) in
    let output_dir := OUTPUT_DIR ++ parent safe_rel_path in
    let output_path := output_dir ++ [String.append chunk_name SUFFIX] in
    Ok (rel_path, chunk_name, output_dir, output_path)).

Definition output_path_of (BASE_DIR OUTPUT_DIR chunk_path : path) : except path :=
  except_bind (chunk_paths_of BASE_DIR OUTPUT_DIR chunk_path)
    (fun '(_, _, _, output_path) => Ok output_path).


(* ------------------------------------------------------------------ *)
(** ** Archive keys (line 51) *)

(** [str.lower()] on ASCII letters. *)
Definition lower_char (c : Ascii.ascii) : Ascii.ascii :=
  let n := Ascii.nat_of_ascii c in
  if Nat.leb 65 n && Nat.leb n 90 then Ascii.ascii_of_nat (n + 32) else c.

Fixpoint lower (s : string) : string :=
  match s with
  | EmptyString => EmptyString
  | String c s' => String (lower_char c) (lower s')
  end.

(** [sub in s] *)
Fixpoint contains (sub s : string) : bool :=
  String.prefix sub s ||
  match s with
  | EmptyString => false
  | String _ s' => contains sub s'
  end.

(** A tensor archive: its keys in the order [f.keys()] lists them, each with
    its tensor (a tensor is the list of its sub-tensors along axis 0). *)
Abbreviation archive := (list (string * list frame)).

(** [next(k for k in keys if "frame" in k.lower())] with [f.get_tensor]. *)
Definition frame_tensor (ar : archive) : except (list frame) :=
  match list_find (fun kt => contains "frame" (lower kt.1) = true) ar with
  | Some (_, (_, t)) => Ok t
  | None => Err StopIteration
  end.

(* ------------------------------------------------------------------ *)
(** ** External collaborators *)

Abbreviation patch := (list Z).   (* one [3, H, W] row of [pixel_values] *)
Abbreviation vec := (list Z).     (* one pooled feature row *)

(** [processor(images=...)["pixel_values"]]: [B, 3, H, W] for a processor
    that yields one crop per image, [B, P, 3, H, W] for one that yields
    several crops (padding to a common [P] is folded into [patches_of]). *)
Inductive pixel_values :=
  | PV4 (rows : list patch)
  | PV5 (rows : list (list patch)).

Record env := mkEnv {
  BASE_DIR : path;
  OUTPUT_DIR : path;
  src_fs : gmap path archive;                  (* input archives *)
  processor_5d : bool;                         (* does the processor return 5-d pixel_values? *)
  patch_of : image -> patch;                   (* 4-d processor, per image *)
  patches_of : image -> list patch;            (* 5-d processor, per image *)
  vision_tower : patch -> vec;                 (* [model.vision_tower(.)[0]] row, [.mean(dim=1)] *)
  tower_fail : list patch -> option exn;       (* encoder failure on a batch (OOM, ...) *)
  save_fail : path -> option (bool * exn)      (* mkdir/save_file failure; bool: file already created *)
}.

Definition processor (E : env) (imgs : list image) : pixel_values :=
  if processor_5d E then PV5 (map (patches_of E) imgs)
  else PV4 (map (patch_of E) imgs).

(** Lines 82-83: [pixel_values.view(-1, *pixel_values.shape[-3:])] on 5-d input. *)
Definition flatten (pv : pixel_values) : list patch :=
  match pv with
  | PV4 rows => rows
  | PV5 rows => concat rows
  end.

(* ------------------------------------------------------------------ *)
(** ** The world and the monad of the loop body *)

(** A file under the destination root: a complete archive with its two
    tensors, or what a failed [save_file] left behind. *)
Inductive ofile :=
  | Archive (frame_data : list frame) (embedding_data : list vec)
  | Partial.

(** The lines the script writes with [tqdm.write]. *)
Inductive event :=
  | EvSkipExisting (chunk_name : string)                        (* line 46 *)
  | EvGrayscale (chunk_name : string) (i : nat)                 (* line 61 *)
  | EvRGBA (chunk_name : string) (i : nat)                      (* line 64 *)
  | EvUnexpected (chunk_name : string) (i : nat) (shape : list nat)  (* line 67 *)
  | EvNoValid (chunk_name : string)                             (* line 74 *)
  | EvProcessed (rel_path output_path : path)                   (* line 102 *)
  | EvFailed (chunk_path : path) (e : exn).                     (* lines 105-106 *)

(** Destination file system, the lines written so far and the input
    archives opened so far with [safe_open] (both newest first). *)
Record world := mkWorld { dst : gmap path ofile; trace : list event; opened : list path }.

Definition M (A : Type) : Type := world -> except A * world.

Definition ret {A} (a : A) : M A := fun w => (Ok a, w).

Definition bind {A B} (m : M A) (k : A -> M B) : M B := fun w =>
  match m w with
  | (Ok a, w') => k a w'
  | (Err e, w') => (Err e, w')
  end.

Notation "'let*' x ':=' m 'in' k" := (bind m (fun x => k))
  (at level 200, x binder, m at level 100, k at level 200).
Notation "'let*' ' p ':=' m 'in' k" := (bind m (fun x => match x with p => k end))
  (at level 200, p pattern, m at level 100, k at level 200).

(** [tqdm.write(...)] *)
Definition emit (ev : event) : M unit :=
  fun w => (Ok tt, mkWorld (dst w) (ev :: trace w) (opened w)).

(** [safe_open(chunk_path, ...)] *)
Definition open_archive (chunk_path : path) : M unit :=
  fun w => (Ok tt, mkWorld (dst w) (trace w) (chunk_path :: opened w)).

Definition raise {A} (e : exn) : M A := fun w => (Err e, w).

Definition lift {A} (x : except A) : M A := fun w => (x, w).

(** [output_path.exists()] *)
Definition path_exists (p : path) : M bool :=
  fun w => (Ok (bool_decide (is_Some (dst w !! p))), w).

(* ------------------------------------------------------------------ *)
(** ** The steps of one chunk *)

(** Lines 49-52: open the archive, pick the frame key, load the tensor. *)
Definition load_frames (E : env) (chunk_path : path) : M (list frame) :=
  let* _ := open_archive chunk_path in
  match src_fs E !! chunk_path with
  | None => raise OSError
  | Some ar => lift (frame_tensor ar)
  end.

(** Lines 78-87: one processor call and one vision-tower call on the batch. *)
Definition encode (E : env) (valid_images : list image) : M (list vec) :=
  let pixel_values := flatten (processor E valid_images) in
  match tower_fail E pixel_values with
  | Some e => raise e
  | None => ret (map (vision_tower E) pixel_values)
  end.

(** The message the loop body writes for frame [i] (lines 61, 64, 67),
    before [Image.fromarray] runs: grayscale, alpha dropped, or unexpected
    channel count with [frame.shape]. *)
Definition frame_message (chunk_name : string) (i : nat) (fi : frame) : option event :=
  let frame := astype_uint8 fi in
  if Nat.eqb (ndim frame) 2 then Some (EvGrayscale chunk_name i)
  else
    match last (fshape frame) with
    | None => None
    | Some c =>
        if Nat.eqb c 4 then Some (EvRGBA chunk_name i)
        else if negb (Nat.eqb c 3) then Some (EvUnexpected chunk_name i (fshape frame))
        else None
    end.

Definition note (o : option event) : M unit :=
  match o with
  | Some ev => emit ev
  | None => ret tt
  end.

(** Lines 54-71: for every frame, its message, then its outcome
    ([classify]); the Valid ones give the pairs
    [(valid_indices[k], valid_images[k])]. *)
Fixpoint normalize_loop (chunk_name : string) (i : nat) (frames : list frame)
    : M (list (nat * image)) :=
  match frames with
  | [] => ret []
  | fi :: rest =>
      let* _ := note (frame_message chunk_name i fi) in
      let* r := lift (classify fi) in
      let* vs := normalize_loop chunk_name (S i) rest in
      match r with
      | Valid img => ret ((i, img) :: vs)
      | Dropped _ => ret vs
      end
  end.

(** Lines 90-92: [embeddings[idx] = emb] for [zip(valid_indices, pooled)];
    an index out of range raises IndexError. *)
Fixpoint scatter (pairs : list (nat * vec)) (embeddings : list (option vec))
    : except (list (option vec)) :=
  match pairs with
  | [] => Ok embeddings
  | (idx, emb) :: rest =>
      if Nat.ltb idx (length embeddings)
      then scatter rest (<[idx := Some emb]> embeddings)
      else Err IndexError
  end.

(** [torch.zeros_like(v)] *)
Definition zeros_like (v : vec) : vec := replicate (length v) 0.

(** Line 96: [emb if emb is not None else torch.zeros_like(pooled[0])]. *)
Definition fill_zero (pooled : list vec) (o : option vec) : except vec :=
  match o with
  | Some emb => Ok emb
  | None =>
      match pooled with
      | [] => Err IndexError
      | p0 :: _ => Ok (zeros_like p0)
      end
  end.

Fixpoint map_except {A B} (f : A -> except B) (l : list A) : except (list B) :=
  match l with
  | [] => Ok []
  | x :: l' =>
      except_bind (f x) (fun y => except_bind (map_except f l') (fun ys => Ok (y :: ys)))
  end.

(** [torch.stack] of a list of equally wide rows; it refuses an empty list. *)
Definition torch_stack (rows : list vec) : except (list vec) :=
  match rows with
  | [] => Err RuntimeError
  | _ => Ok rows
  end.

(** Lines 95-98. *)
Definition realign (n : nat) (valid_indices : list nat) (pooled : list vec)
    : except (list vec) :=
  except_bind (scatter (zip valid_indices pooled) (replicate n None)) (fun embeddings =>
    except_bind (map_except (fill_zero pooled) embeddings) torch_stack).

(** Lines 100-101: [output_dir.mkdir(...)] then [save_file(...)], written
    straight to [output_path]. A failure either happens before the file is
    created or leaves what was written so far under [output_path]. *)
Definition save_file (E : env) (output_dir output_path : path)
    (frame_data : list frame) (embedding_data : list vec) : M unit :=
  fun w =>
    match save_fail E output_path with
    | None =>
        (Ok tt, mkWorld (<[output_path := Archive frame_data embedding_data]> (dst w))
                        (trace w) (opened w))
    | Some (created, e) =>
        (Err e, mkWorld (if created then <[output_path := Partial]> (dst w) else dst w)
                        (trace w) (opened w))
    end.

(** The body of the [try] block, lines 39-102. *)
Definition process_chunk (E : env) (chunk_path : path) : M unit :=
  let* '(rel_path, chunk_name, output_dir, output_path) :=
     lift (chunk_paths_of (BASE_DIR E) (OUTPUT_DIR E) chunk_path) in
  let* ex := path_exists output_path in
  if ex then emit (EvSkipExisting chunk_name) else
  let* frame_data := load_frames E chunk_path in
  let* valid := normalize_loop chunk_name 0 frame_data in
  let valid_indices := map fst valid in
  let valid_images := map snd valid in
  match valid_images with
  | [] => emit (EvNoValid chunk_name)
  | _ =>
      let* pooled := encode E valid_images in
      let* embedding_data := lift (realign (length frame_data) valid_indices pooled) in
      let* _ := save_file E output_dir output_path frame_data embedding_data in
      emit (EvProcessed rel_path output_path)
  end.

(** Lines 38-106: [try: ... except Exception as e: log]. *)
Definition try_chunk (E : env) (chunk_path : path) : M unit :=
  fun w =>
    match process_chunk E chunk_path w with
    | (Err e, w') =>
        if is_Exception e
        then (Ok tt, mkWorld (dst w') (EvFailed chunk_path e :: trace w') (opened w'))
        else (Err e, w')
    | r => r
    end.

(** Line 37: [for chunk_path in chunk_paths]. *)
Fixpoint run (E : env) (chunk_paths : list path) : M unit :=
  match chunk_paths with
  | [] => ret tt
  | c :: cs => let* _ := try_chunk E c in run E cs
  end.

(* ------------------------------------------------------------------ *)
(** ** Discovery (line 30) *)

(** [fnmatch(name, "*" + suf)]: some prefix followed by [suf]. *)
Fixpoint star_suffix (suf s : string) : bool :=
  String.eqb s suf ||
  match s with
  | EmptyString => false
  | String _ s' => star_suffix suf s'
  end.

(** [p] lies strictly below [root]. *)
Fixpoint strictly_under (root p : path) : bool :=
  match root, p with
  | [], [] => false
  | [], _ :: _ => true
  | r :: root', x :: p' => String.eqb r x && strictly_under root' p'
  | _ :: _, [] => false
  end.

(** Line 30: [list(Path(BASE_DIR).rglob("*.safetensors"))], where [tree] lists
    the paths of the file system in the order the directory walk visits
    them. *)
Definition rglob (root : path) (tree : list path) : list path :=
  List.filter (fun p => strictly_under root p && star_suffix ".safetensors" (name p)) tree.

(* ------------------------------------------------------------------ *)
(** ** Statement-side definitions *)

(** The output path as claim C9 words it: destination root plus the relative
    path (parent directories and stem) with every directory separator and
    every "|" replaced by "_", then "_embedded" and the archive extension. *)
Definition claimed_output_path (BASE_DIR OUTPUT_DIR chunk_path : path) : except path :=
  except_bind (relative_to chunk_path BASE_DIR) (fun rel =>
    Ok (OUTPUT_DIR ++
        [String.append
           (replace_char "/"%char "_"%char
              (sanitize (join_slash (parent rel ++ [stem chunk_path])))) SUFFIX])).

(** The per-frame classification as claim C5 words it, cases in its order. *)
Definition claimed_record (f : frame) : frame_record :=
  if Nat.eqb (ndim f) 2 then Dropped Grayscale
  else match last (fshape f) with
       | Some 4%nat => Valid (fromarray (strip_alpha f))
       | Some 3%nat => Valid (fromarray f)
       | _ => Dropped UnexpectedChannels
       end.

(** A frame of an unsigned-byte tensor. *)
Definition byte_frame (f : frame) : Prop := Forall (fun z => 0 <= z < 256) (fpix f).

Fixpoint no_slash (s : string) : bool :=
  match s with
  | EmptyString => true
  | String c s' => negb (Ascii.eqb c "/"%char) && no_slash s'
  end.

(** A path component as [rglob] yields it: non-empty, not ".", no "/". *)
Definition comp_ok (x : string) : bool :=
  negb (String.eqb x "") && negb (String.eqb x ".") && no_slash x.

(** When one pass of the loop body leaves the file [x] at [output_path]
    (provided that path does not exist yet): the chunk gets through loading,
    normalisation, encoding and realignment, and [save_file] either succeeds
    or fails after creating the file. *)
Definition writes (E : env) (chunk_path output_path : path) (x : ofile) : Prop :=
  exists rel_path chunk_name output_dir ar frame_data valid embedding_data,
    chunk_paths_of (BASE_DIR E) (OUTPUT_DIR E) chunk_path
      = Ok (rel_path, chunk_name, output_dir, output_path) /\
    src_fs E !! chunk_path = Some ar /\
    frame_tensor ar = Ok frame_data /\
    normalize frame_data = Ok valid /\
    map snd valid <> [] /\
    tower_fail E (flatten (processor E (map snd valid))) = None /\
    realign (length frame_data) (map fst valid)
      (map (vision_tower E) (flatten (processor E (map snd valid)))) = Ok embedding_data /\
    ((save_fail E output_path = None /\ x = Archive frame_data embedding_data) \/
     (exists e, save_fail E output_path = Some (true, e) /\ x = Partial)).

(** A cell of the [embeddings] list holds a row of [pooled] or nothing. *)
Definition opt_in (pooled : list vec) (o : option vec) : Prop :=
  match o with Some v => v ∈ pooled | None => True end.

(** The messages [normalize_loop] writes, newest first: those of the
    frames up to the first one whose [classify] raises, that one included. *)
Fixpoint frame_log (chunk_name : string) (i : nat) (frames : list frame) : list event :=
  match frames with
  | [] => []
  | fi :: rest =>
      match classify fi with
      | Err _ => []
      | Ok _ => frame_log chunk_name (S i) rest
      end ++ option_list (frame_message chunk_name i fi)
  end.

(** A per-frame message (lines 61, 64, 67). *)
Definition frame_note (ev : event) : Prop :=
  match ev with
  | EvGrayscale _ _ | EvRGBA _ _ | EvUnexpected _ _ _ => True
  | _ => False
  end.

(* ------------------------------------------------------------------ *)
(** ** Concrete inputs *)

Module Sample.

Definition rgb : frame := mkFrame [1; 1; 3]%nat [10; 20; 30].
Definition rgb' : frame := mkFrame [1; 1; 3]%nat [40; 50; 60].
Definition rgba : frame := mkFrame [1; 1; 4]%nat [1; 2; 3; 4].
Definition gray : frame := mkFrame [1; 1]%nat [7].
Definition gray' : frame := mkFrame [1; 1]%nat [8].
Definition two_ch : frame := mkFrame [1; 1; 2]%nat [5; 6].
(** Rank-4 frames (one time step of a 1x1 RGB clip each). *)
Definition clip : frame := mkFrame [1; 1; 1; 3]%nat [10; 20; 30].
Definition clip' : frame := mkFrame [1; 1; 1; 3]%nat [40; 50; 60].

Definition chunk : path := ["base"; "c.safetensors"].
Definition chunk_out : path := ["out"; "c_embedded.safetensors"].
Definition no_key_chunk : path := ["base"; "k.safetensors"].
Definition gray_chunk : path := ["base"; "g.safetensors"].
Definition pipe_chunk : path := ["base"; "a|b.safetensors"].
Definition underscore_chunk : path := ["base"; "a_b.safetensors"].
Definition collision_out : path := ["out"; "a_b_embedded.safetensors"].
Definition scalar_chunk : path := ["base"; "s.safetensors"].
Definition scalar : frame := mkFrame [] [5].
Definition scalar' : frame := mkFrame [] [6].
Definition rgb_chunk : path := ["base"; "r.safetensors"].
Definition rgb_out : path := ["out"; "r_embedded.safetensors"].
Definition clip_chunk : path := ["base"; "v.safetensors"].
Definition clip_out : path := ["out"; "v_embedded.safetensors"].

(** Input archives. Apart from [chunk], whose frames differ in shape, every
    frame tensor is a real tensor: all its frames share one shape. *)
Definition src : gmap path archive :=
  <[chunk := [("frames", [rgb; gray; rgba])]]>
  (<[no_key_chunk := [("images", [rgb])]]>
  (<[gray_chunk := [("frame_data", [gray; gray'])]]>
  (<[pipe_chunk := [("frames", [rgb])]]>
  (<[underscore_chunk := [("frames", [rgb'])]]>
  (<[scalar_chunk := [("frame_data", [scalar; scalar'])]]>
  (<[rgb_chunk := [("frames", [rgb; rgb'])]]>
  (<[clip_chunk := [("frames", [clip; clip'])]]> ∅))))))).

(** One crop per image; the tower returns the crop itself. *)
Definition env4 : env := {|
  BASE_DIR := ["base"]; OUTPUT_DIR := ["out"]; src_fs := src;
  processor_5d := false;
  patch_of := fun img => fpix (img_array img);
  patches_of := fun img => [fpix (img_array img)];
  vision_tower := fun p => p;
  tower_fail := fun _ => None;
  save_fail := fun _ => None |}.

(** Two crops per image, as a multi-crop processor returns them. *)
Definition env5 : env := {|
  BASE_DIR := ["base"]; OUTPUT_DIR := ["out"]; src_fs := src;
  processor_5d := true;
  patch_of := fun img => fpix (img_array img);
  patches_of := fun img => [fpix (img_array img); map (Z.add 100) (fpix (img_array img))];
  vision_tower := fun p => p;
  tower_fail := fun _ => None;
  save_fail := fun _ => None |}.

(** The disk fills up while [save_file] is writing. *)
Definition env_disk_full : env := {|
  BASE_DIR := ["base"]; OUTPUT_DIR := ["out"]; src_fs := src;
  processor_5d := false;
  patch_of := fun img => fpix (img_array img);
  patches_of := fun img => [fpix (img_array img)];
  vision_tower := fun p => p;
  tower_fail := fun _ => None;
  save_fail := fun _ => Some (true, OSError) |}.

(** A tower that pools every crop into a row of fixed width 2. *)
Definition env_pool : env := {|
  BASE_DIR := ["base"]; OUTPUT_DIR := ["out"]; src_fs := src;
  processor_5d := false;
  patch_of := fun img => fpix (img_array img);
  patches_of := fun img => [fpix (img_array img)];
  vision_tower := fun p => [fold_right Z.add 0 p; Z.of_nat (length p)];
  tower_fail := fun _ => None;
  save_fail := fun _ => None |}.

(** The encoder runs out of GPU memory. *)
Definition env_oom : env := {|
  BASE_DIR := ["base"]; OUTPUT_DIR := ["out"]; src_fs := src;
  processor_5d := false;
  patch_of := fun img => fpix (img_array img);
  patches_of := fun img => [fpix (img_array img)];
  vision_tower := fun p => p;
  tower_fail := fun _ => Some OutOfMemoryError;
  save_fail := fun _ => None |}.

Definition empty_world : world := mkWorld ∅ [] [].

(** A small file system: the chunks above, a non-archive file, the base
    directory itself and an archive outside it, in walk order. *)
Definition tree : list path :=
  [["base"]; chunk; ["base"; "notes.txt"]; no_key_chunk; gray_chunk;
   ["elsewhere"; "x.safetensors"]; pipe_chunk].

End Sample.

(* ================================================================== *)
(** * Theorems *)

(* ------------------------------------------------------------------ *)
(** ** Output paths *)

Lemma relative_to_app (base rel : path) : relative_to (base ++ rel) base = Ok rel.
Proof.
  induction base as [|b base IH]; simpl; [by destruct rel|].
  by rewrite String.eqb_refl.
Qed.

Lemma replace_char_append a b (x y : string) :
  replace_char a b (String.append x y) = String.append (replace_char a b x) (replace_char a b y).
Proof.
  induction x as [|c x IH]; [done|].
  change (String.append (String c x) y) with (String c (String.append x y)).
  simpl. by rewrite IH.
Qed.

Lemma sanitize_join (l : list string) : sanitize (join_slash l) = join_slash (map sanitize l).
Proof.
  unfold sanitize.
  induction l as [|x [|y l] IH]; [done|done|].
  change (join_slash (x :: y :: l)) with (String.append x (String "/"%char (join_slash (y :: l)))).
  rewrite replace_char_append.
  change (replace_char "|"%char "_"%char (String "/"%char (join_slash (y :: l))))
    with (String "/"%char (replace_char "|"%char "_"%char (join_slash (y :: l)))).
  rewrite IH. done.
Qed.

Lemma string_append_empty_r (x : string) : String.append x "" = x.
Proof.
  induction x as [|c x IH]; [done|].
  change (String.append (String c x) "") with (String c (String.append x "")).
  by rewrite IH.
Qed.

Lemma split_slash_no_slash (x s : string) :
  no_slash x = true ->
  split_slash (String.append x s) =
  let '(cur, rest) := split_slash s in (String.append x cur, rest).
Proof.
  induction x as [|c x IH]; simpl.
  - intros _. change (String.append "" s) with s.
    destruct (split_slash s); reflexivity.
  - intros [Hc Hx]%andb_prop.
    change (String.append (String c x) s) with (String c (String.append x s)).
    simpl. rewrite IH by done.
    destruct (split_slash s) as [cur rest].
    apply negb_true_iff in Hc. by rewrite Hc.
Qed.

Lemma split_slash_slash (t : string) :
  split_slash (String "/"%char t) = let '(cur, rest) := split_slash t in ("", push_part cur rest).
Proof. simpl. by destruct (split_slash t). Qed.

Lemma push_part_ok (x : string) (rest : list string) :
  comp_ok x = true -> push_part x rest = x :: rest.
Proof.
  unfold comp_ok, push_part. intros [[H1 H2]%andb_prop _]%andb_prop.
  apply negb_true_iff in H1, H2. by rewrite H1, H2.
Qed.

Lemma no_slash_of_comp_ok x : comp_ok x = true -> no_slash x = true.
Proof. unfold comp_ok. by intros [_ ?]%andb_prop. Qed.

Lemma split_join (x : string) (l : list string) :
  Forall (fun c => comp_ok c = true) (x :: l) ->
  split_slash (join_slash (x :: l)) = (x, l).
Proof.
  revert x. induction l as [|y l IH]; intros x Hok.
  - apply Forall_cons in Hok as [Hx _].
    simpl. rewrite <- (string_append_empty_r x) at 1.
    rewrite split_slash_no_slash by (by apply no_slash_of_comp_ok).
    simpl. by rewrite string_append_empty_r.
  - apply Forall_cons in Hok as [Hx Hok].
    change (join_slash (x :: y :: l)) with (String.append x (String "/"%char (join_slash (y :: l)))).
    rewrite split_slash_no_slash by (by apply no_slash_of_comp_ok).
    rewrite split_slash_slash, IH by done.
    apply Forall_cons in Hok as [Hy _].
    rewrite push_part_ok by done. simpl. by rewrite string_append_empty_r.
Qed.

Lemma path_of_join (l : list string) :
  l <> [] -> Forall (fun c => comp_ok c = true) l -> path_of_str (join_slash l) = l.
Proof.
  destruct l as [|x l]; [done|]. intros _ Hok.
  unfold path_of_str. rewrite split_join by done.
  apply Forall_cons in Hok as [Hx _]. by apply push_part_ok.
Qed.

Lemma no_slash_sanitize x : no_slash x = true -> no_slash (sanitize x) = true.
Proof.
  unfold sanitize. induction x as [|c x IH]; simpl; [done|].
  intros [Hc Hx]%andb_prop. rewrite IH by done.
  destruct (Ascii.eqb c "|"%char); [done|]. by rewrite Hc.
Qed.

Lemma comp_ok_sanitize x : comp_ok x = true -> comp_ok (sanitize x) = true.
Proof.
  unfold comp_ok. intros [[H1 H2]%andb_prop H3]%andb_prop.
  rewrite no_slash_sanitize by done. rewrite andb_true_r.
  apply andb_true_intro. split.
  - destruct x as [|c x]; [done|]. reflexivity.
  - destruct x as [|c [|c' x]]; [done| |unfold sanitize; cbn; by repeat case_match].
    unfold sanitize. simpl replace_char.
    destruct (Ascii.eqb c "|"%char); [reflexivity|]. exact H2.
Qed.

Lemma stem_app (base rel : path) : rel <> [] -> stem (base ++ rel) = stem rel.
Proof.
  intros Hrel. unfold stem, name.
  destruct (exists_last Hrel) as (r & x & ->).
  by rewrite app_assoc, !last_snoc.
Qed.

Lemma removelast_map {A B} (f : A -> B) (l : list A) :
  removelast (map f l) = map f (removelast l).
Proof. induction l as [|x [|y l] IH]; [done|done|]. simpl in *. by rewrite IH. Qed.

(** C9 (counterexample): for the input [base/a/b.safetensors] the code writes
    [out/a/b_embedded.safetensors]; replacing the directory separator as well,
    as the claim says, would give [out/a_b_embedded.safetensors]. *)
Lemma C9_separator_not_replaced :
  output_path_of ["base"] ["out"] ["base"; "a"; "b.safetensors"]
    = Ok ["out"; "a"; "b_embedded.safetensors"] /\
  claimed_output_path ["base"] ["out"] ["base"; "a"; "b.safetensors"]
    = Ok ["out"; "a_b_embedded.safetensors"] /\
  output_path_of ["base"] ["out"] ["base"; "a"; "b.safetensors"]
    <> claimed_output_path ["base"] ["out"] ["base"; "a"; "b.safetensors"].
Proof. vm_compute. split; [reflexivity|split; [reflexivity|discriminate]]. Qed.

(** C9 (amended): for an input [BASE_DIR/rel] whose components are ordinary
    names, the output path is the destination root, then the parent
    directories of [rel] (kept as directories) with every "|" replaced by
    "_", then the stem with every "|" replaced by "_" followed by
    "_embedded.safetensors". *)
Theorem C9_output_path_mirrors (BASE_DIR OUTPUT_DIR rel : path) :
  rel <> [] -> forallb comp_ok rel = true ->
  output_path_of BASE_DIR OUTPUT_DIR (BASE_DIR ++ rel) =
  Ok (OUTPUT_DIR ++ map sanitize (parent rel) ++ [String.append (sanitize (stem rel)) SUFFIX]).
Proof.
  intros Hne Hok. rewrite forallb_forall in Hok.
  unfold output_path_of, chunk_paths_of. rewrite relative_to_app. simpl.
  assert (str_of_path rel = join_slash rel) as -> by (by destruct rel).
  rewrite sanitize_join, path_of_join.
  - unfold parent. rewrite removelast_map, stem_app by done.
    by rewrite app_assoc.
  - by destruct rel.
  - rewrite Forall_forall. intros y (x & -> & Hx)%list_elem_of_fmap.
    apply comp_ok_sanitize, Hok. by apply list_elem_of_In.
Qed.

Lemma C9_output_path_mirrors_witness :
  ["a|x"; "b|y.safetensors"] <> [] /\
  forallb comp_ok ["a|x"; "b|y.safetensors"] = true /\
  output_path_of ["base"] ["out"] (["base"] ++ ["a|x"; "b|y.safetensors"]) =
  Ok (["out"] ++ map sanitize (parent ["a|x"; "b|y.safetensors"]) ++
      [String.append (sanitize (stem ["a|x"; "b|y.safetensors"])) SUFFIX]).
Proof.
  split; [discriminate|]. split; [vm_compute; reflexivity|].
  apply C9_output_path_mirrors; [discriminate|vm_compute; reflexivity].
Defined.

(* ------------------------------------------------------------------ *)
(** ** Frame Normalizer *)

Lemma astype_uint8_byte (f : frame) : byte_frame f -> astype_uint8 f = f.
Proof.
  destruct f as [sh px]. unfold byte_frame, astype_uint8. simpl. intros Hpx.
  f_equal. induction Hpx as [|z px Hz _ IH]; [done|].
  simpl. rewrite IH, Z.mod_small by lia. done.
Qed.

Lemma fshape_mk (sh : list nat) (px : list Z) : fshape (mkFrame sh px) = sh.
Proof. reflexivity. Qed.

Lemma classify_claimed (f : frame) :
  byte_frame f -> fshape f <> [] -> (ndim f <= 3)%nat -> classify f = Ok (claimed_record f).
Proof.
  intros Hb Hne Hle. unfold classify. rewrite astype_uint8_byte by done.
  destruct f as [sh px]. unfold ndim in *. simpl in Hne, Hle.
  destruct sh as [|x [|y [|z [|t sh]]]]; simpl in Hle; [done| | | |lia].
  - destruct x as [|[|[|[|[|x]]]]]; reflexivity.
  - reflexivity.
  - destruct z as [|[|[|[|[|z]]]]]; reflexivity.
Qed.

Lemma fromarray_mode_long (sh : list nat) :
  (4 <= length sh)%nat -> fromarray_mode sh = None.
Proof.
  intros Hl. unfold fromarray_mode.
  destruct sh as [|x [|y [|z [|t sh]]]]; simpl in Hl; try lia.
  simpl. by destruct z as [|[|[|[|[|z]]]]].
Qed.

Lemma classify_rank4 (f : frame) :
  (4 <= ndim f)%nat -> last (fshape f) = Some 3%nat \/ last (fshape f) = Some 4%nat ->
  classify f = Err TypeError.
Proof.
  intros Hle Hl. unfold classify, shape_last, Image_fromarray.
  change (ndim (astype_uint8 f)) with (ndim f). change (fshape (astype_uint8 f)) with (fshape f).
  rewrite (proj2 (Nat.eqb_neq (ndim f) 2)) by lia.
  destruct Hl as [Hl|Hl]; rewrite Hl; simpl.
  - rewrite fromarray_mode_long; [done|]. exact Hle.
  - unfold strip_alpha. change (fshape (astype_uint8 f)) with (fshape f). rewrite Hl.
    rewrite fshape_mk, fromarray_mode_long; [done|].
    unfold ndim in Hle. apply last_Some in Hl as [l' Hl']. rewrite Hl' in Hle |- *.
    rewrite removelast_last, length_app. rewrite length_app in Hle. simpl in *. lia.
Qed.

Lemma classify_rank4_other (f : frame) :
  byte_frame f -> (4 <= ndim f)%nat ->
  last (fshape f) <> Some 3%nat -> last (fshape f) <> Some 4%nat ->
  classify f = Ok (Dropped UnexpectedChannels).
Proof.
  intros Hb Hle H3 H4. unfold classify, shape_last. rewrite astype_uint8_byte by done.
  rewrite (proj2 (Nat.eqb_neq (ndim f) 2)) by lia.
  destruct (last (fshape f)) as [c|] eqn:Hl.
  - simpl. rewrite (proj2 (Nat.eqb_neq c 4)) by congruence.
    rewrite (proj2 (Nat.eqb_neq c 3)) by congruence. done.
  - apply last_None in Hl. unfold ndim in Hle. rewrite Hl in Hle. simpl in Hle. lia.
Qed.

Lemma classify_0d (f : frame) : fshape f = [] -> classify f = Err IndexError.
Proof. intros Hsh. unfold classify, ndim, shape_last, astype_uint8. simpl. by rewrite Hsh. Qed.

Lemma slice_channels_lookup (n c : nat) (px : list Z) (j k : nat) :
  (3 <= c)%nat -> length px = (n * c)%nat -> (j < n)%nat -> (k < 3)%nat ->
  slice_channels n c px !! (3 * j + k)%nat = px !! (c * j + k)%nat.
Proof.
  revert px j. induction n as [|n IH]; intros px j Hc Hlen Hj Hk; [lia|].
  cbn [slice_channels]. destruct j as [|j].
  - rewrite lookup_app_l by (rewrite length_take; lia).
    rewrite lookup_take_lt by lia. f_equal. lia.
  - rewrite lookup_app_r by (rewrite length_take; lia).
    rewrite length_take, Nat.min_l by lia.
    replace (3 * S j + k - 3)%nat with (3 * j + k)%nat by lia.
    rewrite IH by (try rewrite length_drop; lia).
    rewrite lookup_drop. f_equal. lia.
Qed.

Lemma normalize_from_spec (fs : list frame) :
  Forall byte_frame fs -> Forall (fun f => fshape f <> [] /\ (ndim f <= 3)%nat) fs ->
  forall i, exists pairs,
    normalize_from i fs = Ok pairs /\
    Forall (fun p => (i <= p.1)%nat) pairs /\
    StronglySorted lt (map fst pairs) /\
    (forall k img, (k, img) ∈ pairs <->
       (i <= k)%nat /\ exists f, fs !! (k - i)%nat = Some f /\ claimed_record f = Valid img).
Proof.
  induction fs as [|f fs IH]; intros Hb Hne i.
  - exists []. split_and!; [done|constructor|constructor|].
    intros k img. split; [by intros ?%elem_of_nil|].
    intros (_ & f & Hf & _). by rewrite lookup_nil in Hf.
  - apply Forall_cons in Hb as [Hbf Hb], Hne as [Hnef Hne].
    destruct (IH Hb Hne (S i)) as (pairs & Hn & Hge & Hsort & Hmem).
    simpl. rewrite classify_claimed by (done || apply Hnef). simpl.
    destruct (claimed_record f) as [img|r] eqn:Hc.
    + exists ((i, img) :: pairs). rewrite Hn. simpl. split_and!.
      * done.
      * constructor; [simpl; lia|]. eapply Forall_impl; [exact Hge|]. simpl; lia.
      * constructor; [done|]. apply Forall_map. eapply Forall_impl; [exact Hge|]. simpl; lia.
      * intros k img'. rewrite elem_of_cons, Hmem. split.
        -- intros [[= -> ->] | (Hk & g & Hg & Hcg)].
           ++ split; [lia|]. exists f. by rewrite Nat.sub_diag.
           ++ split; [lia|]. exists g. replace (k - i)%nat with (S (k - S i)) by lia. done.
        -- intros (Hk & g & Hg & Hcg). destruct (decide (k = i)) as [->|Hki].
           ++ rewrite Nat.sub_diag in Hg. simpl in Hg. injection Hg as <-.
              rewrite Hc in Hcg. injection Hcg as ->. by left.
           ++ right. split; [lia|]. exists g.
              replace (k - i)%nat with (S (k - S i)) in Hg by lia. done.
    + exists pairs. split_and!.
      * done.
      * eapply Forall_impl; [exact Hge|]. simpl; lia.
      * done.
      * intros k img'. rewrite Hmem. split.
        -- intros (Hk & g & Hg & Hcg). split; [lia|]. exists g.
           replace (k - i)%nat with (S (k - S i)) by lia. done.
        -- intros (Hk & g & Hg & Hcg). destruct (decide (k = i)) as [->|Hki].
           ++ rewrite Nat.sub_diag in Hg. simpl in Hg. injection Hg as <-.
              by rewrite Hc in Hcg.
           ++ split; [lia|]. exists g.
              replace (k - i)%nat with (S (k - S i)) in Hg by lia. done.
Qed.

(** C5, as the claim words it: every frame whose last dimension is 3 (or 4,
    alpha dropped) is Valid. A rank-4 frame (a clip of RGB images) passes
    the channel checks but [Image.fromarray] has no mode for its shape and
    raises TypeError: the chunk fails and nothing is written. *)
Lemma C5_rank4_frame_fails :
  claimed_record Sample.clip = Valid (fromarray Sample.clip) /\
  classify Sample.clip = Err TypeError /\
  try_chunk Sample.env4 Sample.clip_chunk Sample.empty_world
    = (Ok tt, mkWorld ∅ [EvFailed Sample.clip_chunk TypeError] [Sample.clip_chunk]).
Proof. vm_compute. split_and!; reflexivity. Qed.

(** C5 (amended): on frames of an unsigned-byte tensor, a frame of rank 1
    to 3 is classified as [claimed_record] says (rank 2: Dropped as
    grayscale; else last dimension 4: Valid with the first 3 channels kept;
    else last dimension not 3: Dropped; else Valid unchanged); a frame of
    rank 4 or more is Dropped when its last dimension is neither 3 nor 4,
    and otherwise raises TypeError in [Image.fromarray]; a 0-d frame raises
    IndexError. The alpha strip keeps exactly the first three channels of
    every pixel, and when every frame has rank 1 to 3 the resulting
    (index, image) pairs are exactly the Valid frames, with strictly
    increasing indices. *)
Theorem C5_frame_normalizer (frame_data : list frame) :
  Forall byte_frame frame_data ->
  Forall (fun f => fshape f <> [] /\ (ndim f <= 3)%nat) frame_data ->
  (forall f, byte_frame f -> fshape f <> [] -> (ndim f <= 3)%nat ->
     classify f = Ok (claimed_record f)) /\
  (forall f, byte_frame f -> (4 <= ndim f)%nat ->
     last (fshape f) <> Some 3%nat -> last (fshape f) <> Some 4%nat ->
     classify f = Ok (Dropped UnexpectedChannels)) /\
  (forall f, (4 <= ndim f)%nat -> last (fshape f) = Some 3%nat \/ last (fshape f) = Some 4%nat ->
     classify f = Err TypeError) /\
  (forall f, fshape f = [] -> classify f = Err IndexError) /\
  (forall f, last (fshape f) = Some 4%nat ->
     length (fpix f) = (outer_size (fshape f) * 4)%nat ->
     fshape (strip_alpha f) = removelast (fshape f) ++ [3%nat] /\
     forall j k, (j < outer_size (fshape f))%nat -> (k < 3)%nat ->
       fpix (strip_alpha f) !! (3 * j + k)%nat = fpix f !! (4 * j + k)%nat) /\
  exists pairs,
    normalize frame_data = Ok pairs /\
    StronglySorted lt (map fst pairs) /\
    (forall i img, (i, img) ∈ pairs <->
       exists f, frame_data !! i = Some f /\ claimed_record f = Valid img).
Proof.
  intros Hb Hne. split_and!.
  - apply classify_claimed.
  - apply classify_rank4_other.
  - apply classify_rank4.
  - apply classify_0d.
  - intros f Hl Hlen. unfold strip_alpha. rewrite Hl. simpl. split; [done|].
    intros j k Hj Hk. apply slice_channels_lookup; lia.
  - destruct (normalize_from_spec frame_data Hb Hne 0) as (pairs & Hn & _ & Hs & Hm).
    exists pairs. split_and!; [done|done|].
    intros i img. rewrite Hm, Nat.sub_0_r. split; [by intros [_ ?]|]. intros ?; split; [lia|done].
Qed.

Lemma C5_frame_normalizer_witness :
  Forall byte_frame [Sample.rgb; Sample.gray; Sample.rgba; Sample.two_ch] /\
  Forall (fun f => fshape f <> [] /\ (ndim f <= 3)%nat)
    [Sample.rgb; Sample.gray; Sample.rgba; Sample.two_ch] /\
  normalize [Sample.rgb; Sample.gray; Sample.rgba; Sample.two_ch]
    = Ok [(0%nat, fromarray Sample.rgb); (2%nat, fromarray (mkFrame [1; 1; 3]%nat [1; 2; 3]))].
Proof.
  assert (Hb : Forall byte_frame [Sample.rgb; Sample.gray; Sample.rgba; Sample.two_ch])
    by (repeat constructor; lia).
  assert (Hn : Forall (fun f => fshape f <> [] /\ (ndim f <= 3)%nat)
                 [Sample.rgb; Sample.gray; Sample.rgba; Sample.two_ch])
    by (repeat constructor; (discriminate || (unfold ndim; simpl; lia))).
  split; [exact Hb|]. split; [exact Hn|].
  destruct (C5_frame_normalizer _ Hb Hn) as (_ & _ & _ & _ & _ & pairs & H & _).
  rewrite H. vm_compute in H. rewrite <- H. vm_compute. reflexivity.
Defined.

(* ------------------------------------------------------------------ *)
(** ** One pass of the loop body *)

Lemma note_eq (o : option event) (w : world) :
  note o w = (Ok tt, mkWorld (dst w) (option_list o ++ trace w) (opened w)).
Proof. destruct o, w; reflexivity. Qed.

(** The per-frame loop computes [normalize_from] and writes [frame_log];
    it neither writes files nor opens archives. *)
Lemma normalize_loop_eq (nm : string) (i : nat) (fs : list frame) (w : world) :
  normalize_loop nm i fs w
  = (normalize_from i fs, mkWorld (dst w) (frame_log nm i fs ++ trace w) (opened w)).
Proof.
  revert i w. induction fs as [|f fs IH]; intros i w; [by destruct w|].
  cbn [normalize_loop normalize_from frame_log]. unfold bind at 1. rewrite note_eq.
  unfold bind, lift. destruct (classify f) as [r|e]; simpl; [|done].
  rewrite IH. simpl. rewrite <- app_assoc.
  destruct (normalize_from (S i) fs); destruct r; reflexivity.
Qed.

Lemma normalize_loop_0 (nm : string) (fs : list frame) (w : world) :
  normalize_loop nm 0 fs w
  = (normalize fs, mkWorld (dst w) (frame_log nm 0 fs ++ trace w) (opened w)).
Proof. apply normalize_loop_eq. Qed.

Ltac unfold_chunk :=
  unfold process_chunk, try_chunk, bind, lift, path_exists, emit, load_frames,
    open_archive, encode, raise, ret, save_file in *; simpl in *.

(** The body only ever changes the destination by writing its own, absent,
    output path. *)
Lemma process_chunk_dst (E : env) (c : path) (w : world) :
  dst (snd (process_chunk E c w)) = dst w \/
  exists p x, writes E c p x /\ dst w !! p = None /\
    dst (snd (process_chunk E c w)) = <[p := x]> (dst w).
Proof.
  unfold_chunk.
  destruct (chunk_paths_of _ _ c) as [[[[rel nm] odir] p]|e] eqn:Hp; simpl; [|by left].
  destruct (bool_decide (is_Some (dst w !! p))) eqn:Hex; simpl; [by left|].
  apply bool_decide_eq_false in Hex.
  destruct (src_fs E !! c) as [ar|] eqn:Hs; simpl; [|by left].
  destruct (frame_tensor ar) as [fd|e] eqn:Hf; simpl; [|by left].
  rewrite normalize_loop_0. simpl.
  destruct (normalize fd) as [valid|e] eqn:Hn; simpl; [|by left].
  destruct (map snd valid) as [|img imgs] eqn:Him; simpl; [by left|].
  destruct (tower_fail E _) as [e|] eqn:Ht; simpl; [by left|].
  destruct (realign _ _ _) as [ed|e] eqn:Hr; simpl; [|by left].
  destruct (save_fail E p) as [[[] e]|] eqn:Hsv; simpl.
  - right. exists p, Partial. split_and!; [|by apply eq_None_not_Some|done].
    exists rel, nm, odir, ar, fd, valid, ed. rewrite Him. split_and!; try done.
    right. by exists e.
  - by left.
  - right. exists p, (Archive fd ed). split_and!; [|by apply eq_None_not_Some|done].
    exists rel, nm, odir, ar, fd, valid, ed. rewrite Him. split_and!; try done.
    by left.
Qed.

Lemma process_chunk_writes (E : env) (c p : path) (x : ofile) (w : world) :
  writes E c p x -> dst w !! p = None ->
  dst (snd (process_chunk E c w)) = <[p := x]> (dst w) /\
  (forall fd ed, x = Archive fd ed -> fst (process_chunk E c w) = Ok tt) /\
  (x = Partial -> exists e, save_fail E p = Some (true, e) /\ fst (process_chunk E c w) = Err e).
Proof.
  intros (rel & nm & odir & ar & fd & valid & ed & Hp & Hs & Hf & Hn & Him & Ht & Hr & Hsv) Hnone.
  unfold_chunk. rewrite Hp. simpl.
  rewrite bool_decide_eq_false_2 by (rewrite Hnone; apply is_Some_None).
  simpl. rewrite Hs. simpl. rewrite Hf. simpl. rewrite normalize_loop_0, Hn. simpl.
  destruct (map snd valid) as [|img imgs] eqn:Him'; [done|]. simpl.
  rewrite Ht. simpl. rewrite Hr. simpl.
  destruct Hsv as [[Hsv ->] | (e & Hsv & ->)]; rewrite Hsv; simpl.
  - split_and!; [done| |done]. done.
  - split_and!; [done|done|]. intros _. by exists e.
Qed.

(* ------------------------------------------------------------------ *)
(** ** Index Realigner *)

Lemma zip_fst_elem {A B} (a : list A) (b : list B) (x : A) :
  x ∈ map fst (zip a b) -> x ∈ a.
Proof.
  revert b. induction a as [|y a IH]; intros [|z b]; simpl; try by intros ?%elem_of_nil.
  rewrite !elem_of_cons. intros [->|H]; [by left|right; by eapply IH].
Qed.

Lemma zip_fst_NoDup {A B} (a : list A) (b : list B) :
  NoDup a -> NoDup (map fst (zip a b)).
Proof.
  revert b. induction a as [|y a IH]; intros [|z b] Hnd; simpl; [constructor..|].
  apply NoDup_cons in Hnd as [Hy Hnd]. apply NoDup_cons_2; [|by apply IH].
  intros ?%zip_fst_elem. done.
Qed.

Lemma scatter_length (pairs : list (nat * vec)) (l l' : list (option vec)) :
  scatter pairs l = Ok l' -> length l' = length l.
Proof.
  revert l. induction pairs as [|[i v] pairs IH]; intros l; simpl; [by intros H; injection H as ->|].
  destruct (Nat.ltb i (length l)); [|done]. intros H. by rewrite (IH _ H), length_insert.
Qed.

Lemma scatter_other (pairs : list (nat * vec)) (l l' : list (option vec)) (i : nat) :
  scatter pairs l = Ok l' -> i ∉ map fst pairs -> l' !! i = l !! i.
Proof.
  revert l. induction pairs as [|[j v] pairs IH]; intros l; simpl; [by intros H; injection H as ->|].
  destruct (Nat.ltb j (length l)); [|done]. intros H Hi.
  rewrite elem_of_cons in Hi. rewrite (IH _ H) by naive_solver.
  apply list_lookup_insert_ne. naive_solver.
Qed.

Lemma scatter_placed (pairs : list (nat * vec)) (l l' : list (option vec)) (i : nat) (v : vec) :
  scatter pairs l = Ok l' -> NoDup (map fst pairs) -> (i, v) ∈ pairs -> l' !! i = Some (Some v).
Proof.
  revert l. induction pairs as [|[j e] pairs IH]; intros l; simpl; [by intros _ _ ?%elem_of_nil|].
  destruct (Nat.ltb j (length l)) eqn:Hj; [|done]. apply Nat.ltb_lt in Hj.
  intros H [Hj' Hnd]%NoDup_cons Hin. apply elem_of_cons in Hin as [[= -> ->]|Hin].
  - rewrite (scatter_other _ _ _ _ H Hj'). by apply list_lookup_insert_eq.
  - by apply (IH _ H Hnd).
Qed.

Lemma map_except_fill (pooled : list vec) (l : list (option vec)) (l' : list vec) :
  map_except (fill_zero pooled) l = Ok l' ->
  length l' = length l /\
  forall i o, l !! i = Some o ->
    exists v, l' !! i = Some v /\ fill_zero pooled o = Ok v.
Proof.
  revert l'. induction l as [|o l IH]; intros l'; simpl; [by intros [= <-]|].
  destruct (fill_zero pooled o) as [v|e] eqn:Hv; simpl; [|done].
  destruct (map_except (fill_zero pooled) l) as [vs|e] eqn:Hvs; simpl; [|done].
  intros H; injection H as <-. destruct (IH vs eq_refl) as [Hlen Hat]. split; [simpl; lia|].
  intros [|i] o'; simpl; [intros H; injection H as <-; by exists v|]. apply Hat.
Qed.

(** What [realign] produces: one row per frame, the paired vector at every
    paired index, the zero row of [pooled[0]]'s width everywhere else. *)
Lemma realign_spec (n : nat) (idxs : list nat) (pooled ed : list vec) :
  realign n idxs pooled = Ok ed ->
  length ed = n /\
  (forall i, (i < n)%nat -> i ∉ idxs ->
     exists p0 rest, pooled = p0 :: rest /\ ed !! i = Some (zeros_like p0)) /\
  (NoDup idxs -> forall i v, (i, v) ∈ zip idxs pooled -> ed !! i = Some v).
Proof.
  unfold realign.
  destruct (scatter (zip idxs pooled) (replicate n None)) as [emb|e] eqn:Hs; simpl; [|done].
  destruct (map_except (fill_zero pooled) emb) as [rows|e] eqn:Hm; simpl; [|done].
  destruct rows as [|r rows]; simpl; [done|]. intros H; injection H as <-.
  apply map_except_fill in Hm as [Hlen Hat].
  pose proof (scatter_length _ _ _ Hs) as Hslen. rewrite length_replicate in Hslen.
  split_and!.
  - lia.
  - intros i Hi Hni.
    assert (emb !! i = Some None) as Hnone.
    { rewrite (scatter_other _ _ _ _ Hs).
      - by apply lookup_replicate_2.
      - by intros ?%zip_fst_elem. }
    destruct (Hat _ _ Hnone) as (v & Hv & Hf). simpl in Hf.
    destruct pooled as [|p0 rest]; [done|]. injection Hf as <-. by exists p0, rest.
  - intros Hnd i v Hin.
    pose proof (scatter_placed _ _ _ _ _ Hs (zip_fst_NoDup _ _ Hnd) Hin) as Hsome.
    destruct (Hat _ _ Hsome) as (v' & Hv' & Hf). simpl in Hf. by injection Hf as ->.
Qed.

(** The pairs the normalizer returns, for any frames (no shape assumption). *)
Lemma normalize_from_ok (i : nat) (fs : list frame) (valid : list (nat * image)) :
  normalize_from i fs = Ok valid ->
  Forall (fun p => (i <= p.1)%nat) valid /\
  NoDup (map fst valid) /\
  (forall j img, (j, img) ∈ valid ->
     exists f, fs !! (j - i)%nat = Some f /\ classify f = Ok (Valid img) /\ (i <= j)%nat) /\
  (forall k f r, fs !! k = Some f -> classify f = Ok (Dropped r) -> (i + k)%nat ∉ map fst valid).
Proof.
  revert i valid. induction fs as [|f fs IH]; intros i valid; simpl.
  - intros H; injection H as <-. split_and!; try constructor.
    + by intros ? ? ?%elem_of_nil.
    + intros k g r Hg. by rewrite lookup_nil in Hg.
  - destruct (classify f) as [[img|r]|e] eqn:Hc; simpl; [|intros Hn|done].
    + destruct (normalize_from (S i) fs) as [vs|e] eqn:Hn; simpl; [|done].
      intros H; injection H as <-.
      destruct (IH _ _ Hn) as (Hge & Hnd & Hval & Hdrop).
      assert (Hni : i ∉ map fst vs).
      { intros (p & Hp & Hin)%list_elem_of_fmap.
        eapply Forall_forall in Hge; [|exact Hin]. simpl in Hge. lia. }
      split_and!.
      * constructor; [simpl; lia|]. eapply Forall_impl; [exact Hge|]. simpl; lia.
      * simpl. by apply NoDup_cons_2.
      * intros j img' [[= -> ->]|Hin]%elem_of_cons.
        -- exists f. rewrite Nat.sub_diag. split_and!; done || lia.
        -- destruct (Hval _ _ Hin) as (g & Hg & Hcg & Hj). exists g.
           replace (j - i)%nat with (S (j - S i)) by lia. split_and!; done || lia.
      * intros [|k] g r Hg Hcg; simpl in Hg.
        -- injection Hg as <-. congruence.
        -- simpl. rewrite elem_of_cons. intros [Heq|Hin]; [lia|].
           apply (Hdrop k g r Hg Hcg). by replace (S i + k)%nat with (i + S k)%nat by lia.
    + destruct (IH _ _ Hn) as (Hge & Hnd & Hval & Hdrop).
      split_and!.
      * eapply Forall_impl; [exact Hge|]. simpl; lia.
      * done.
      * intros j img' Hin. destruct (Hval _ _ Hin) as (g & Hg & Hcg & Hj). exists g.
        replace (j - i)%nat with (S (j - S i)) by lia. split_and!; done || lia.
      * intros [|k] g r' Hg Hcg; simpl in Hg.
        -- intros (p & Hp & Hin)%list_elem_of_fmap.
           eapply Forall_forall in Hge; [|exact Hin]. simpl in Hge. lia.
        -- replace (i + S k)%nat with (S i + k)%nat by lia. by apply (Hdrop k g r').
Qed.

Lemma try_chunk_dst (E : env) (c : path) (w : world) :
  dst (snd (try_chunk E c w)) = dst (snd (process_chunk E c w)).
Proof.
  unfold try_chunk. destruct (process_chunk E c w) as [[a|e] w']; simpl; [done|].
  by destruct (is_Exception e).
Qed.

(** A file that appears at an absent path was written by the chunk. *)
Lemma try_chunk_new_file (E : env) (c p : path) (w : world) (x : ofile) :
  dst w !! p = None -> dst (snd (try_chunk E c w)) !! p = Some x -> writes E c p x.
Proof.
  rewrite try_chunk_dst. intros Hnone.
  destruct (process_chunk_dst E c w) as [-> | (q & y & Hw & Hq & ->)]; [congruence|].
  destruct (decide (q = p)) as [->|Hne].
  - rewrite lookup_insert_eq. intros H; injection H as ->. done.
  - rewrite lookup_insert_ne by done. congruence.
Qed.

Lemma realign_nil_pooled (n : nat) (idxs : list nat) (ed : list vec) :
  (0 < n)%nat -> realign n idxs [] <> Ok ed.
Proof.
  intros Hn. unfold realign.
  replace (zip idxs (@nil vec)) with (@nil (nat * vec)) by (by destruct idxs).
  simpl. destruct n as [|n]; [lia|]. simpl. done.
Qed.

(** C2: every archive the loop body writes holds one embedding row per
    frame ([len(embedding_data) == len(frame_data)]), and at every Dropped
    frame index the row is exactly [zeros_like] of the first pooled row, the
    row written at the first Valid index (so a zero vector of the encoder's
    width D). *)
Theorem C2_realigned_embeddings (E : env) (c p : path) (w : world)
    (frame_data : list frame) (embedding_data : list vec) :
  dst w !! p = None ->
  dst (snd (try_chunk E c w)) !! p = Some (Archive frame_data embedding_data) ->
  length embedding_data = length frame_data /\
  exists j0 img0 rest v0,
    normalize frame_data = Ok ((j0, img0) :: rest) /\
    embedding_data !! j0 = Some v0 /\
    (forall i f r, frame_data !! i = Some f -> classify f = Ok (Dropped r) ->
       embedding_data !! i = Some (zeros_like v0)).
Proof.
  intros Hnone Hnew.
  destruct (try_chunk_new_file _ _ _ _ _ Hnone Hnew)
    as (rel & nm & odir & ar & fd & valid & ed & Hp & Hs & Hf & Hn & Him & Ht & Hr & Hsv).
  destruct Hsv as [[_ Hx] | (e & _ & Hx)]; [|done]. injection Hx as <- <-.
  destruct valid as [|[j0 img0] rest]; [done|].
  destruct (normalize_from_ok 0 _ _ Hn) as (_ & Hnd & Hval & Hdrop).
  destruct (Hval j0 img0) as (f0 & Hf0 & _ & _); [by left|]. rewrite Nat.sub_0_r in Hf0.
  set (pooled := map (vision_tower E) (flatten (processor E (map snd ((j0, img0) :: rest))))) in Hr.
  destruct (realign_spec _ _ _ _ Hr) as (Hlen & Hzero & Hplaced).
  destruct pooled as [|p0 prest] eqn:Hpooled.
  { exfalso. eapply realign_nil_pooled; [|exact Hr].
    apply lookup_lt_Some in Hf0. lia. }
  split; [done|]. exists j0, img0, rest, p0. split_and!; [done| |].
  - apply Hplaced; [done|]. simpl. by left.
  - intros i f r Hfi Hc.
    destruct (Hzero i) as (p0' & rest' & Heq & Hi).
    + by apply lookup_lt_Some in Hfi.
    + exact (Hdrop i f r Hfi Hc).
    + injection Heq as <- _. exact Hi.
Qed.

Lemma C2_realigned_embeddings_witness :
  dst Sample.empty_world !! Sample.chunk_out = None /\
  dst (snd (try_chunk Sample.env4 Sample.chunk Sample.empty_world)) !! Sample.chunk_out
    = Some (Archive [Sample.rgb; Sample.gray; Sample.rgba] [[10; 20; 30]; [0; 0; 0]; [1; 2; 3]]) /\
  length [[10; 20; 30]; [0; 0; 0]; [1; 2; 3]] = length [Sample.rgb; Sample.gray; Sample.rgba].
Proof.
  assert (H1 : dst Sample.empty_world !! Sample.chunk_out = None) by reflexivity.
  assert (H2 : dst (snd (try_chunk Sample.env4 Sample.chunk Sample.empty_world)) !! Sample.chunk_out
    = Some (Archive [Sample.rgb; Sample.gray; Sample.rgba] [[10; 20; 30]; [0; 0; 0]; [1; 2; 3]]))
    by (vm_compute; reflexivity).
  split; [exact H1|]. split; [exact H2|].
  exact (proj1 (C2_realigned_embeddings _ _ _ _ _ _ H1 H2)).
Defined.

Lemma normalize_from_valid (i : nat) (fs : list frame) (valid : list (nat * image))
    (k : nat) (f : frame) (img : image) :
  normalize_from i fs = Ok valid -> fs !! k = Some f -> classify f = Ok (Valid img) ->
  ((i + k)%nat, img) ∈ valid.
Proof.
  revert i k valid. induction fs as [|g fs IH]; intros i k valid; simpl; [by rewrite lookup_nil|].
  destruct (classify g) as [[img'|r]|e] eqn:Hc; simpl; [|intros Hn|done].
  - destruct (normalize_from (S i) fs) as [vs|e] eqn:Hn; simpl; [|done].
    intros H; injection H as <-. destruct k as [|k]; simpl.
    + intros H; injection H as ->. rewrite Hc. intros H; injection H as ->.
      rewrite Nat.add_0_r. by left.
    + intros Hk Hcf. right. replace (i + S k)%nat with (S i + k)%nat by lia.
      by eapply IH.
  - destruct k as [|k]; simpl.
    + intros H; injection H as ->. congruence.
    + intros Hk Hcf. replace (i + S k)%nat with (S i + k)%nat by lia. by eapply IH.
Qed.

Lemma normalize_from_classify_ok (i : nat) (fs : list frame) (valid : list (nat * image))
    (k : nat) (f : frame) :
  normalize_from i fs = Ok valid -> fs !! k = Some f -> exists r, classify f = Ok r.
Proof.
  revert i k valid. induction fs as [|g fs IH]; intros i k valid; simpl; [by rewrite lookup_nil|].
  destruct (classify g) as [r|e] eqn:Hc; simpl; [|done].
  intros Hn. destruct k as [|k]; simpl.
  - intros H; injection H as <-. by exists r.
  - intros Hk. destruct r as [img|r'].
    + destruct (normalize_from (S i) fs) as [vs|e] eqn:Hn'; [|done]. by apply (IH _ _ _ Hn' Hk).
    + by apply (IH _ _ _ Hn Hk).
Qed.

Lemma Image_fromarray_ok (a : frame) (img : image) : Image_fromarray a = Ok img -> img = fromarray a.
Proof.
  unfold Image_fromarray. destruct (fromarray_mode (fshape a)); [destruct (Nat.ltb _ _)|];
    intros H; inversion H; done.
Qed.

(** C7: the [frame_data] of a written archive is the tensor loaded from the
    input archive, untouched (a 4-channel frame keeps its 4 channels), while
    the embeddings are computed from the normalizer's images, in which every
    4-channel frame appears alpha-stripped. *)
Theorem C7_frame_data_unchanged (E : env) (c p : path) (w : world)
    (frame_data : list frame) (embedding_data : list vec) :
  dst w !! p = None ->
  dst (snd (try_chunk E c w)) !! p = Some (Archive frame_data embedding_data) ->
  (exists ar, src_fs E !! c = Some ar /\ frame_tensor ar = Ok frame_data) /\
  exists valid,
    normalize frame_data = Ok valid /\
    realign (length frame_data) (map fst valid)
      (map (vision_tower E) (flatten (processor E (map snd valid)))) = Ok embedding_data /\
    (forall i f, frame_data !! i = Some f -> ndim f <> 2%nat -> last (fshape f) = Some 4%nat ->
       (i, fromarray (strip_alpha (astype_uint8 f))) ∈ valid).
Proof.
  intros Hnone Hnew.
  destruct (try_chunk_new_file _ _ _ _ _ Hnone Hnew)
    as (rel & nm & odir & ar & fd & valid & ed & Hp & Hs & Hf & Hn & Him & Ht & Hr & Hsv).
  destruct Hsv as [[_ Hx] | (e & _ & Hx)]; [|done]. injection Hx as <- <-.
  split; [by exists ar|]. exists valid. split_and!; [done|done|].
  intros i f Hfi Hnd Hl.
  destruct (normalize_from_classify_ok 0 _ _ i f Hn Hfi) as [r Hcr].
  apply (normalize_from_valid 0 _ _ i f _ Hn Hfi).
  revert Hcr. unfold classify, shape_last, ndim in *. cbn [astype_uint8 fshape].
  apply Nat.eqb_neq in Hnd. rewrite Hnd, Hl. simpl.
  destruct (Image_fromarray _) as [img|e] eqn:Hi; simpl; [|done].
  by rewrite (Image_fromarray_ok _ _ Hi).
Qed.

Lemma C7_frame_data_unchanged_witness :
  dst Sample.empty_world !! Sample.chunk_out = None /\
  dst (snd (try_chunk Sample.env4 Sample.chunk Sample.empty_world)) !! Sample.chunk_out
    = Some (Archive [Sample.rgb; Sample.gray; Sample.rgba] [[10; 20; 30]; [0; 0; 0]; [1; 2; 3]]) /\
  exists ar, src_fs Sample.env4 !! Sample.chunk = Some ar /\
    frame_tensor ar = Ok [Sample.rgb; Sample.gray; Sample.rgba].
Proof.
  assert (H1 : dst Sample.empty_world !! Sample.chunk_out = None) by reflexivity.
  assert (H2 : dst (snd (try_chunk Sample.env4 Sample.chunk Sample.empty_world)) !! Sample.chunk_out
    = Some (Archive [Sample.rgb; Sample.gray; Sample.rgba] [[10; 20; 30]; [0; 0; 0]; [1; 2; 3]]))
    by (vm_compute; reflexivity).
  split; [exact H1|]. split; [exact H2|].
  exact (proj1 (C7_frame_data_unchanged _ _ _ _ _ _ H1 H2)).
Defined.

(* ------------------------------------------------------------------ *)
(** ** Chunks without valid frames *)

Lemma run_cons (E : env) (c : path) (cs : list path) (w : world) :
  run E (c :: cs) w =
  match try_chunk E c w with
  | (Ok _, w') => run E cs w'
  | (Err e, w') => (Err e, w')
  end.
Proof. reflexivity. Qed.

(** C6: when the output path is absent and the chunk loads but no frame is
    Valid, the body opens the archive, writes the per-frame messages and the
    "no valid frames" message, writes no file, returns normally, and the run
    goes on with the next chunk from that world. *)
Theorem C6_no_valid_frames (E : env) (c : path) (cs : list path) (w : world)
    rel_path chunk_name output_dir output_path ar frame_data :
  chunk_paths_of (BASE_DIR E) (OUTPUT_DIR E) c = Ok (rel_path, chunk_name, output_dir, output_path) ->
  dst w !! output_path = None ->
  src_fs E !! c = Some ar ->
  frame_tensor ar = Ok frame_data ->
  normalize frame_data = Ok [] ->
  let w' := mkWorld (dst w) (EvNoValid chunk_name :: frame_log chunk_name 0 frame_data ++ trace w)
                    (c :: opened w) in
  process_chunk E c w = (Ok tt, w') /\
  run E (c :: cs) w = run E cs w'.
Proof.
  intros Hp Hnone Hs Hf Hn w'.
  assert (Hpc : process_chunk E c w = (Ok tt, w')).
  { unfold_chunk. rewrite Hp. simpl.
    rewrite bool_decide_eq_false_2 by (rewrite Hnone; apply is_Some_None).
    simpl. rewrite Hs. simpl. rewrite Hf. simpl. rewrite normalize_loop_0, Hn. done. }
  split; [done|]. rewrite run_cons. unfold try_chunk. by rewrite Hpc.
Qed.

Lemma C6_no_valid_frames_witness :
  chunk_paths_of ["base"] ["out"] Sample.gray_chunk
    = Ok (["g.safetensors"], "g", ["out"], ["out"; "g_embedded.safetensors"]) /\
  process_chunk Sample.env4 Sample.gray_chunk Sample.empty_world
    = (Ok tt, mkWorld ∅ [EvNoValid "g"; EvGrayscale "g" 1; EvGrayscale "g" 0] [Sample.gray_chunk]).
Proof.
  assert (Hp : chunk_paths_of (BASE_DIR Sample.env4) (OUTPUT_DIR Sample.env4) Sample.gray_chunk
    = Ok (["g.safetensors"], "g", ["out"], ["out"; "g_embedded.safetensors"])) by reflexivity.
  split; [exact Hp|].
  exact (proj1 (C6_no_valid_frames Sample.env4 Sample.gray_chunk [] Sample.empty_world
    _ _ _ _ [("frame_data", [Sample.gray; Sample.gray'])] [Sample.gray; Sample.gray']
    Hp eq_refl eq_refl eq_refl eq_refl)).
Defined.

(* ------------------------------------------------------------------ *)
(** ** Failure isolation *)

(** Every error a step can produce, other than those of the collaborators,
    is an [Exception]. *)
Definition exception_only {A} (x : except A) : Prop :=
  match x with
  | Err e => is_Exception e = true
  | Ok _ => True
  end.

Lemma relative_to_exc (p base : path) : exception_only (relative_to p base).
Proof.
  revert p. induction base as [|b base IH]; intros [|x p]; simpl; try done.
  by destruct (String.eqb b x).
Qed.

Lemma chunk_paths_of_exc (B O c : path) : exception_only (chunk_paths_of B O c).
Proof.
  unfold chunk_paths_of. pose proof (relative_to_exc c B) as H.
  by destruct (relative_to c B).
Qed.

Lemma frame_tensor_exc (ar : archive) : exception_only (frame_tensor ar).
Proof. unfold frame_tensor. by repeat case_match. Qed.

Lemma classify_exc (f : frame) : exception_only (classify f).
Proof.
  unfold classify. destruct (Nat.eqb _ 2); [done|].
  unfold shape_last. destruct (last _) as [c|]; simpl; [|done].
  destruct (Nat.eqb c 4); [|destruct (negb _); [done|]];
    unfold Image_fromarray; destruct (fromarray_mode _); simpl;
    try destruct (Nat.ltb _ _); done.
Qed.

Lemma normalize_from_exc (i : nat) (fs : list frame) : exception_only (normalize_from i fs).
Proof.
  revert i. induction fs as [|f fs IH]; intros i; simpl; [done|].
  pose proof (classify_exc f) as Hc.
  destruct (classify f) as [[img|r]|e]; simpl; [|apply IH|done].
  pose proof (IH (S i)) as H. by destruct (normalize_from (S i) fs).
Qed.

Lemma scatter_exc (pairs : list (nat * vec)) (l : list (option vec)) :
  exception_only (scatter pairs l).
Proof.
  revert l. induction pairs as [|[i v] pairs IH]; intros l; simpl; [done|].
  destruct (Nat.ltb i (length l)); [apply IH|done].
Qed.

Lemma map_except_fill_exc (pooled : list vec) (l : list (option vec)) :
  exception_only (map_except (fill_zero pooled) l).
Proof.
  induction l as [|o l IH]; simpl; [done|].
  destruct (fill_zero pooled o) eqn:Hf; simpl.
  - by destruct (map_except (fill_zero pooled) l).
  - unfold fill_zero in Hf. repeat case_match; simplify_eq; done.
Qed.

Lemma realign_exc (n : nat) (idxs : list nat) (pooled : list vec) :
  exception_only (realign n idxs pooled).
Proof.
  unfold realign. pose proof (scatter_exc (zip idxs pooled) (replicate n None)) as H1.
  destruct (scatter _ _) as [emb|e]; simpl; [|done].
  pose proof (map_except_fill_exc pooled emb) as H2.
  destruct (map_except _ _) as [rows|e]; simpl; [|done].
  unfold torch_stack. by destruct rows.
Qed.

(** The collaborators fail only with [Exception]s (OOM, OSError, ...). *)
Definition collaborators_raise_exceptions (E : env) : Prop :=
  (forall b, match tower_fail E b with Some e => is_Exception e = true | None => True end) /\
  (forall p, match save_fail E p with Some (_, e) => is_Exception e = true | None => True end).

Lemma process_chunk_exc (E : env) (c : path) (w : world) :
  collaborators_raise_exceptions E -> exception_only (fst (process_chunk E c w)).
Proof.
  intros [Ht Hs]. unfold_chunk.
  pose proof (chunk_paths_of_exc (BASE_DIR E) (OUTPUT_DIR E) c) as H1.
  destruct (chunk_paths_of _ _ c) as [[[[rel nm] odir] p]|e]; simpl; [|done].
  destruct (bool_decide _); simpl; [done|].
  destruct (src_fs E !! c) as [ar|]; simpl; [|done].
  pose proof (frame_tensor_exc ar) as H2.
  destruct (frame_tensor ar) as [fd|e]; simpl; [|done].
  rewrite normalize_loop_0. simpl.
  pose proof (normalize_from_exc 0 fd) as H3. unfold normalize.
  destruct (normalize_from 0 fd) as [valid|e]; simpl; [|done].
  destruct (map snd valid); simpl; [done|].
  specialize (Ht (flatten (processor E (i :: l)))).
  destruct (tower_fail E _) as [e|]; simpl; [done|].
  pose proof (realign_exc (length fd) (map fst valid)
    (map (vision_tower E) (flatten (processor E (i :: l))))) as H4.
  destruct (realign _ _ _); simpl; [|done].
  specialize (Hs p). destruct (save_fail E p) as [[b e]|]; simpl; done.
Qed.

Lemma try_chunk_ok (E : env) (c : path) (w : world) :
  collaborators_raise_exceptions E -> fst (try_chunk E c w) = Ok tt.
Proof.
  intros HE. pose proof (process_chunk_exc E c w HE) as H.
  unfold try_chunk. destruct (process_chunk E c w) as [[[]|e] w']; simpl in *; [done|].
  by rewrite H.
Qed.

(** C4: when the collaborators (encoder, writer) fail only with
    [Exception]s, the run over any list of chunks finishes normally, and a
    chunk whose body raises [e] is logged as [EvFailed c e] (its identity and
    the error) after which the loop proceeds with the remaining chunks. *)
Theorem C4_failures_caught (E : env) (cs : list path) (w : world) :
  collaborators_raise_exceptions E ->
  fst (run E cs w) = Ok tt /\
  (forall c rest w0 e w1, process_chunk E c w0 = (Err e, w1) ->
     try_chunk E c w0 = (Ok tt, mkWorld (dst w1) (EvFailed c e :: trace w1) (opened w1)) /\
     run E (c :: rest) w0 = run E rest (mkWorld (dst w1) (EvFailed c e :: trace w1) (opened w1))).
Proof.
  intros HE. split.
  - revert w. induction cs as [|c cs IH]; intros w; [done|].
    rewrite run_cons. pose proof (try_chunk_ok E c w HE) as H.
    destruct (try_chunk E c w) as [[[]|e] w']; simpl in H; [apply IH|done].
  - intros c rest w0 e w1 Hpc.
    pose proof (process_chunk_exc E c w0 HE) as Hx. rewrite Hpc in Hx. simpl in Hx.
    assert (Ht : try_chunk E c w0 = (Ok tt, mkWorld (dst w1) (EvFailed c e :: trace w1) (opened w1))).
    { unfold try_chunk. by rewrite Hpc, Hx. }
    split; [done|]. by rewrite run_cons, Ht.
Qed.

Lemma C4_failures_caught_witness :
  collaborators_raise_exceptions Sample.env_oom /\
  run Sample.env_oom [Sample.rgb_chunk; Sample.no_key_chunk] Sample.empty_world
    = (Ok tt, mkWorld ∅ [EvFailed Sample.no_key_chunk StopIteration;
                         EvFailed Sample.rgb_chunk OutOfMemoryError]
                        [Sample.no_key_chunk; Sample.rgb_chunk]) /\
  fst (run Sample.env_oom [Sample.rgb_chunk; Sample.no_key_chunk] Sample.empty_world) = Ok tt.
Proof.
  assert (HE : collaborators_raise_exceptions Sample.env_oom) by (split; intros; reflexivity).
  split; [exact HE|]. split; [vm_compute; reflexivity|].
  exact (proj1 (C4_failures_caught Sample.env_oom [Sample.rgb_chunk; Sample.no_key_chunk]
                  Sample.empty_world HE)).
Defined.

(* ------------------------------------------------------------------ *)
(** ** Re-running over the same destination *)

(** Lines 45-47: an existing output path ends the body before any read. *)
Lemma process_chunk_skip (E : env) (c : path) (w : world) rel_path chunk_name output_dir output_path :
  chunk_paths_of (BASE_DIR E) (OUTPUT_DIR E) c = Ok (rel_path, chunk_name, output_dir, output_path) ->
  is_Some (dst w !! output_path) ->
  process_chunk E c w = (Ok tt, mkWorld (dst w) (EvSkipExisting chunk_name :: trace w) (opened w)).
Proof.
  intros Hp Hex. unfold_chunk. rewrite Hp. simpl.
  by rewrite bool_decide_eq_true_2 by done.
Qed.

Lemma writes_paths (E : env) (c p : path) (x : ofile) :
  writes E c p x -> exists rel nm odir, chunk_paths_of (BASE_DIR E) (OUTPUT_DIR E) c = Ok (rel, nm, odir, p).
Proof. intros (rel & nm & odir & _ & _ & _ & _ & Hp & _). by exists rel, nm, odir. Qed.

Lemma try_chunk_mono (E : env) (c p : path) (w : world) :
  is_Some (dst w !! p) -> is_Some (dst (snd (try_chunk E c w)) !! p).
Proof.
  rewrite try_chunk_dst. intros Hp.
  destruct (process_chunk_dst E c w) as [-> | (q & y & _ & _ & ->)]; [done|].
  destruct (decide (q = p)) as [->|Hne].
  - rewrite lookup_insert_eq. by eexists.
  - by rewrite lookup_insert_ne.
Qed.

Lemma run_mono (E : env) (cs : list path) (p : path) (w : world) :
  is_Some (dst w !! p) -> is_Some (dst (snd (run E cs w)) !! p).
Proof.
  revert w. induction cs as [|c cs IH]; intros w Hp; [done|].
  rewrite run_cons. pose proof (try_chunk_mono E c p w Hp) as H.
  destruct (try_chunk E c w) as [[]w']; simpl in *; [by apply IH|done].
Qed.

(** After a completed run, every output some chunk of the run would write
    exists. *)
Lemma run_done (E : env) (cs : list path) (w w1 : world) :
  run E cs w = (Ok tt, w1) ->
  forall c, c ∈ cs -> forall p x, writes E c p x -> is_Some (dst w1 !! p).
Proof.
  revert w. induction cs as [|c cs IH]; intros w Hrun c' Hc' p x Hw.
  { by apply elem_of_nil in Hc'. }
  rewrite run_cons in Hrun.
  destruct (try_chunk E c w) as [[[]|e] w'] eqn:Ht; [|done].
  apply elem_of_cons in Hc' as [Heq|Hc'].
  - subst c'.
    assert (Hw' : is_Some (dst w' !! p)).
    { destruct (dst w !! p) as [y|] eqn:Hp.
      + pose proof (try_chunk_mono E c p w) as H. rewrite Ht in H. apply H. by eexists.
      + destruct (process_chunk_writes E c p x w Hw Hp) as [Hd _].
        pose proof (try_chunk_dst E c w) as H. rewrite Ht in H. simpl in H.
        rewrite H, Hd, lookup_insert_eq. by eexists. }
    pose proof (run_mono E cs p w' Hw') as H. by rewrite Hrun in H.
  - by apply (IH w' Hrun c' Hc' p x).
Qed.











(* ------------------------------------------------------------------ *)
(** ** Writing the output archive *)

(** C8, as the claim words it: a failed write never leaves a file under the
    final name. The script gives no such guarantee: it calls [save_file]
    once, straight on the final path. With a [save_file] that writes the
    file in place and fails when the disk fills up after creating it
    ([Sample.env_disk_full]), the failure is caught and logged, a partial
    file stays at the output path, and a later run (with a healthy disk)
    skips the chunk because of it. *)
Lemma C8_partial_file_left :
  let w1 := snd (run Sample.env_disk_full [Sample.rgb_chunk] Sample.empty_world) in
  fst (run Sample.env_disk_full [Sample.rgb_chunk] Sample.empty_world) = Ok tt /\
  dst w1 !! Sample.rgb_out = Some Partial /\
  trace w1 = [EvFailed Sample.rgb_chunk OSError] /\
  process_chunk Sample.env4 Sample.rgb_chunk w1
    = (Ok tt, mkWorld (dst w1) (EvSkipExisting "r" :: trace w1) (opened w1)).
Proof. vm_compute. split_and!; reflexivity. Qed.

(** C8 (amended): the archive is written by one [save_file] call straight to
    the final path; the script adds no temporary name, rename or cleanup, so
    what a failure leaves is up to [save_file]. If [save_file] fails without
    creating the file, no file is there. A file that appears there is either
    the complete archive (both tensors, and the body returns normally) or,
    when [save_file] fails after creating the file, what it left: the body
    raises, the error (an [Exception]) is caught and logged with the chunk
    path, and any later visit of the chunk skips it. *)
Theorem C8_direct_save (E : env) (c p : path) (w : world) :
  dst w !! p = None ->
  (forall e, save_fail E p = Some (false, e) -> dst (snd (try_chunk E c w)) !! p = None) /\
  forall x, dst (snd (try_chunk E c w)) !! p = Some x ->
  ((save_fail E p = None /\
    exists frame_data embedding_data, x = Archive frame_data embedding_data /\
      fst (process_chunk E c w) = Ok tt) \/
   (x = Partial /\ exists e, save_fail E p = Some (true, e) /\ fst (process_chunk E c w) = Err e /\
      (is_Exception e = true ->
       fst (try_chunk E c w) = Ok tt /\
       trace (snd (try_chunk E c w)) = EvFailed c e :: trace (snd (process_chunk E c w))))) /\
  exists rel nm odir,
    chunk_paths_of (BASE_DIR E) (OUTPUT_DIR E) c = Ok (rel, nm, odir, p) /\
    forall w', is_Some (dst w' !! p) ->
      process_chunk E c w' = (Ok tt, mkWorld (dst w') (EvSkipExisting nm :: trace w') (opened w')).
Proof.
  intros Hnone. split.
  - intros e He. rewrite try_chunk_dst.
    destruct (process_chunk_dst E c w) as [Hd|(q & y & Hw & _ & Hd)]; rewrite Hd; [done|].
    destruct (decide (q = p)) as [->|Hne]; [|by rewrite lookup_insert_ne].
    destruct Hw as (rel & nm & odir & ar & fd & valid & ed & _ & _ & _ & _ & _ & _ & _ & Hsv).
    rewrite He in Hsv. destruct Hsv as [[? _]|(? & ? & _)]; discriminate.
  - intros x Hx.
    pose proof (try_chunk_new_file E c p w x Hnone Hx) as Hw.
    destruct (process_chunk_writes E c p x w Hw Hnone) as (_ & Harch & Hpart).
    split.
    + destruct Hw as (rel & nm & odir & ar & fd & valid & ed & _ & _ & _ & _ & _ & _ & _ & Hsv).
      destruct Hsv as [[Hsv ->]|(e & Hsv & ->)].
      * left. split; [done|]. exists fd, ed. split; [done|]. by apply (Harch fd ed).
      * right. split; [done|]. destruct (Hpart eq_refl) as (e' & Hsv' & Hf).
        exists e'. split_and!; [done|done|]. intros He.
        unfold try_chunk. destruct (process_chunk E c w) as [r w1]. simpl in Hf. subst r.
        by rewrite He.
    + destruct (writes_paths E c p x Hw) as (rel & nm & odir & Hp).
      exists rel, nm, odir. split; [done|]. intros w' Hex.
      by apply (process_chunk_skip E c w' rel nm odir p).
Qed.

Lemma C8_direct_save_witness :
  dst Sample.empty_world !! Sample.rgb_out = None /\
  dst (snd (try_chunk Sample.env_disk_full Sample.rgb_chunk Sample.empty_world)) !! Sample.rgb_out
    = Some Partial /\
  exists e, save_fail Sample.env_disk_full Sample.rgb_out = Some (true, e) /\
    fst (process_chunk Sample.env_disk_full Sample.rgb_chunk Sample.empty_world) = Err e /\
    (is_Exception e = true ->
     fst (try_chunk Sample.env_disk_full Sample.rgb_chunk Sample.empty_world) = Ok tt /\
     trace (snd (try_chunk Sample.env_disk_full Sample.rgb_chunk Sample.empty_world))
       = EvFailed Sample.rgb_chunk e
           :: trace (snd (process_chunk Sample.env_disk_full Sample.rgb_chunk Sample.empty_world))).
Proof.
  assert (H1 : dst Sample.empty_world !! Sample.rgb_out = None) by reflexivity.
  assert (H2 : dst (snd (try_chunk Sample.env_disk_full Sample.rgb_chunk Sample.empty_world))
                 !! Sample.rgb_out = Some Partial) by (vm_compute; reflexivity).
  split; [exact H1|]. split; [exact H2|].
  destruct (proj1 (proj2 (C8_direct_save Sample.env_disk_full Sample.rgb_chunk Sample.rgb_out
                     Sample.empty_world H1) Partial H2)) as [(_ & fd & ed & Hx & _)|(_ & Hp)].
  - discriminate Hx.
  - exact Hp.
Defined.

(* ------------------------------------------------------------------ *)
(** ** Colliding output paths *)

(** C10: "a|b" and "a_b" are different chunks with the same output path.
    Once the first of them processed has its file there, the second is
    skipped as already processed and the file stays the first one's. *)
Theorem C10_output_collision (E : env) (w : world) (first second : path) (x : ofile) :
  BASE_DIR E = ["base"] -> OUTPUT_DIR E = ["out"] ->
  (first = Sample.pipe_chunk /\ second = Sample.underscore_chunk) \/
  (first = Sample.underscore_chunk /\ second = Sample.pipe_chunk) ->
  dst w !! Sample.collision_out = None ->
  dst (snd (try_chunk E first w)) !! Sample.collision_out = Some x ->
  first <> second /\
  output_path_of (BASE_DIR E) (OUTPUT_DIR E) first = Ok Sample.collision_out /\
  output_path_of (BASE_DIR E) (OUTPUT_DIR E) second = Ok Sample.collision_out /\
  writes E first Sample.collision_out x /\
  let w1 := snd (try_chunk E first w) in
  process_chunk E second w1
    = (Ok tt, mkWorld (dst w1) (EvSkipExisting "a_b" :: trace w1) (opened w1)) /\
  dst (snd (try_chunk E second w1)) !! Sample.collision_out = Some x.
Proof.
  intros HB HO Hpair Hnone Hx. cbv zeta.
  pose proof (try_chunk_new_file E first Sample.collision_out w x Hnone Hx) as Hw.
  assert (Hsec : chunk_paths_of (BASE_DIR E) (OUTPUT_DIR E) second
                 = Ok ([List.last second ""], "a_b", ["out"], Sample.collision_out)).
  { rewrite HB, HO. by destruct Hpair as [[-> ->]|[-> ->]]. }
  split_and!.
  - destruct Hpair as [[-> ->]|[-> ->]]; discriminate.
  - rewrite HB, HO. by destruct Hpair as [[-> ->]|[-> ->]].
  - unfold output_path_of. by rewrite Hsec.
  - exact Hw.
  - apply (process_chunk_skip E second _ _ _ _ _ Hsec). rewrite Hx. by eexists.
  - assert (Hskip := process_chunk_skip E second (snd (try_chunk E first w)) _ _ _ _ Hsec).
    rewrite try_chunk_dst, Hskip by (rewrite Hx; by eexists). exact Hx.
Qed.

Lemma C10_output_collision_witness :
  dst (snd (try_chunk Sample.env4 Sample.pipe_chunk Sample.empty_world)) !! Sample.collision_out
    = Some (Archive [Sample.rgb] [[10; 20; 30]]) /\
  let w1 := snd (try_chunk Sample.env4 Sample.pipe_chunk Sample.empty_world) in
  process_chunk Sample.env4 Sample.underscore_chunk w1
    = (Ok tt, mkWorld (dst w1) (EvSkipExisting "a_b" :: trace w1) (opened w1)).
Proof.
  assert (Hx : dst (snd (try_chunk Sample.env4 Sample.pipe_chunk Sample.empty_world))
                 !! Sample.collision_out = Some (Archive [Sample.rgb] [[10; 20; 30]]))
    by (vm_compute; reflexivity).
  split; [exact Hx|].
  exact (proj1 (proj2 (proj2 (proj2 (proj2
    (C10_output_collision Sample.env4 Sample.empty_world Sample.pipe_chunk
       Sample.underscore_chunk _ eq_refl eq_refl (or_introl (conj eq_refl eq_refl))
       eq_refl Hx)))))).
Defined.

(* ------------------------------------------------------------------ *)
(** ** The batch encoder *)

Lemma zip_map_elem {A B C} (f : B -> C) (l : list (A * B)) (a : A) (b : B) :
  (a, b) ∈ l -> (a, f b) ∈ zip (map fst l) (map f (map snd l)).
Proof.
  induction l as [|[a' b'] l IH]; simpl; [by intros ?%elem_of_nil|].
  intros [H|H]%elem_of_cons.
  - injection H as -> ->. apply list_elem_of_here.
  - apply list_elem_of_further. by apply IH.
Qed.

(** With a processor that returns one crop per image (4-d [pixel_values]),
    the row written at a Valid index is the tower's output for that
    frame's image. *)
Lemma realign_4d_rows (E : env) (fd : list frame) (valid : list (nat * image)) (ed : list vec)
    (i : nat) (img : image) :
  processor_5d E = false ->
  normalize fd = Ok valid ->
  realign (length fd) (map fst valid) (map (vision_tower E) (flatten (processor E (map snd valid))))
    = Ok ed ->
  (i, img) ∈ valid ->
  ed !! i = Some (vision_tower E (patch_of E img)).
Proof.
  intros H4 Hn Hr Hin.
  destruct (normalize_from_ok 0 fd valid Hn) as (_ & Hnd & _ & _).
  destruct (realign_spec _ _ _ _ Hr) as (_ & _ & Hat).
  apply (Hat Hnd). unfold processor. rewrite H4. simpl.
  rewrite map_map. by apply (zip_map_elem (fun im => vision_tower E (patch_of E im)) valid i img).
Qed.

(** C1 (code): with a processor that returns two crops per image (5-d
    [pixel_values], flattened on line 83), the chunk [rgb; rgb'] (two RGB
    frames of one shape) has B = 2 valid images but the tower returns 4
    pooled rows, and line 91 pairs frame 1 with the second crop of frame 0:
    the written row 1 is [110; 120; 130], derived from frame 0, not from
    frame 1's pixels [40; 50; 60]. *)
Lemma C1_crop_rows_misaligned :
  let imgs := [fromarray Sample.rgb; fromarray Sample.rgb'] in
  length imgs = 2%nat /\
  map (vision_tower Sample.env5) (flatten (processor Sample.env5 imgs))
    = [[10; 20; 30]; [110; 120; 130]; [40; 50; 60]; [140; 150; 160]] /\
  dst (snd (try_chunk Sample.env5 Sample.rgb_chunk Sample.empty_world)) !! Sample.rgb_out
    = Some (Archive [Sample.rgb; Sample.rgb'] [[10; 20; 30]; [110; 120; 130]]) /\
  map (vision_tower Sample.env5) (patches_of Sample.env5 (fromarray Sample.rgb))
    = [[10; 20; 30]; [110; 120; 130]] /\
  map (vision_tower Sample.env5) (patches_of Sample.env5 (fromarray Sample.rgb'))
    = [[40; 50; 60]; [140; 150; 160]].
Proof. vm_compute. split_and!; reflexivity. Qed.

(* ================================================================== *)
(** * Further properties of the script *)

Lemma classify_err (f : frame) (e : exn) :
  (ndim f < 4)%nat -> classify f = Err e -> e = IndexError.
Proof.
  destruct f as [sh px]. unfold ndim. simpl. intros Hn.
  unfold classify, astype_uint8, ndim, shape_last, strip_alpha, Image_fromarray. simpl.
  destruct sh as [|x [|y [|z [|t sh]]]]; simpl in *; try lia.
  - intros H. by simplify_eq.
  - destruct (Nat.eqb_spec x 4) as [->|]; simpl; [intros H; by simplify_eq|].
    destruct (Nat.eqb_spec x 3) as [->|]; simpl; intros H; by simplify_eq.
  - intros H. by simplify_eq.
  - destruct (Nat.eqb_spec z 4) as [->|]; simpl; [intros H; by simplify_eq|].
    destruct (Nat.eqb_spec z 3) as [->|]; simpl; intros H; by simplify_eq.
Qed.

Lemma normalize_from_0d (i : nat) (fs : list frame) (f : frame) :
  Forall (fun g => (ndim g < 4)%nat) fs ->
  In f fs -> fshape f = [] -> normalize_from i fs = Err IndexError.
Proof.
  revert i. induction fs as [|g fs IH]; intros i Hall Hin Hsh; [done|].
  apply Forall_cons in Hall as [Hg Hall].
  destruct Hin as [->|Hin].
  - simpl. unfold classify, ndim, shape_last, astype_uint8. simpl. by rewrite Hsh.
  - simpl. destruct (classify g) as [[img|r]|e] eqn:Hc; simpl.
    + by rewrite (IH (S i) Hall Hin Hsh).
    + by apply IH.
    + by rewrite (classify_err g e Hg Hc).
Qed.

(** A frame tensor of frames of rank below 4 that contains a 0-d frame
    ([frame_data] of rank 1, so [frame.shape[-1]] raises) makes the chunk
    fail with IndexError wherever that frame sits: after the per-frame
    lines of the frames before it, the failure is logged with the chunk's
    path, and nothing is encoded or written. *)
Theorem chunk_scalar_frame_fails (E : env) (c : path) (w : world)
    rel_path chunk_name output_dir output_path ar frame_data (f : frame) :
  chunk_paths_of (BASE_DIR E) (OUTPUT_DIR E) c = Ok (rel_path, chunk_name, output_dir, output_path) ->
  dst w !! output_path = None ->
  src_fs E !! c = Some ar ->
  frame_tensor ar = Ok frame_data ->
  Forall (fun g => (ndim g < 4)%nat) frame_data ->
  In f frame_data -> fshape f = [] ->
  try_chunk E c w
    = (Ok tt, mkWorld (dst w) (EvFailed c IndexError :: frame_log chunk_name 0 frame_data ++ trace w)
                      (c :: opened w)).
Proof.
  intros Hp Hnone Hs Hf Hall Hin Hsh.
  assert (Hpc : process_chunk E c w
                = (Err IndexError, mkWorld (dst w) (frame_log chunk_name 0 frame_data ++ trace w)
                                           (c :: opened w))).
  { unfold_chunk. rewrite Hp. simpl.
    rewrite bool_decide_eq_false_2 by (rewrite Hnone; apply is_Some_None).
    simpl. rewrite Hs. simpl. rewrite Hf. simpl. rewrite normalize_loop_0. unfold normalize.
    by rewrite (normalize_from_0d 0 frame_data f Hall Hin Hsh). }
  unfold try_chunk. by rewrite Hpc.
Qed.

Lemma chunk_scalar_frame_fails_witness :
  try_chunk Sample.env4 Sample.scalar_chunk Sample.empty_world
    = (Ok tt, mkWorld ∅ [EvFailed Sample.scalar_chunk IndexError] [Sample.scalar_chunk]).
Proof.
  exact (chunk_scalar_frame_fails Sample.env4 Sample.scalar_chunk Sample.empty_world
    ["s.safetensors"] "s" ["out"] ["out"; "s_embedded.safetensors"]
    [("frame_data", [Sample.scalar; Sample.scalar'])] [Sample.scalar; Sample.scalar'] Sample.scalar
    eq_refl eq_refl eq_refl eq_refl
    ltac:(repeat constructor; vm_compute; lia) (or_introl eq_refl) eq_refl).
Defined.

Lemma lower_append (a b : string) : lower (String.append a b) = String.append (lower a) (lower b).
Proof. induction a as [|x a IH]; simpl; [done|]. by rewrite IH. Qed.

Lemma prefix_append (s t : string) : String.prefix s (String.append s t) = true.
Proof.
  induction s as [|x s IH]; simpl; [by destruct t|].
  destruct (ascii_dec x x); [done|congruence].
Qed.

Lemma contains_prefix (sub t : string) : contains sub (String.append sub t) = true.
Proof.
  assert (H : forall s, contains sub s = String.prefix sub s ||
            match s with EmptyString => false | String _ s' => contains sub s' end)
    by (intros []; reflexivity).
  by rewrite H, prefix_append.
Qed.

Lemma contains_app_l (sub a s : string) :
  contains sub s = true -> contains sub (String.append a s) = true.
Proof. intros Hs. induction a as [|x a IH]; simpl; [done|]. by rewrite IH, orb_true_r. Qed.

(** Line 51 matches keys case-insensitively and anywhere in the key: a key
    with "frame" written in any letter case somewhere in it is a frame key. *)
Theorem frame_key_any_case (a f b : string) :
  lower f = "frame" -> contains "frame" (lower (String.append a (String.append f b))) = true.
Proof.
  intros Hf. rewrite !lower_append, Hf. apply contains_app_l, contains_prefix.
Qed.

Lemma frame_key_any_case_witness :
  lower "Frame" = "frame" /\ contains "frame" (lower "rgb_Frame_data") = true.
Proof.
  split; [reflexivity|].
  exact (frame_key_any_case "rgb_" "Frame" "_data" eq_refl).
Defined.


Lemma slice_channels_forall (P : Z -> Prop) (n c : nat) (px : list Z) :
  Forall P px -> Forall P (slice_channels n c px).
Proof.
  revert px. induction n as [|n IH]; intros px Hpx; simpl; [constructor|].
  apply Forall_app. split; [by apply Forall_take|]. by apply IH, Forall_drop.
Qed.

Lemma astype_uint8_bytes (f : frame) : byte_frame (astype_uint8 f).
Proof.
  unfold byte_frame, astype_uint8. simpl. apply Forall_forall.
  intros z (y & -> & _)%list_elem_of_fmap. pose proof (Z.mod_pos_bound y 256). lia.
Qed.

Lemma fpix_mk (sh : list nat) (px : list Z) : fpix (mkFrame sh px) = px.
Proof. reflexivity. Qed.

Lemma classify_valid (f : frame) (img : image) :
  classify f = Ok (Valid img) ->
  ndim (img_array img) <> 2%nat /\ last (fshape (img_array img)) = Some 3%nat /\
  byte_frame (img_array img).
Proof.
  unfold classify, shape_last. pose proof (astype_uint8_bytes f) as Hb.
  destruct (Nat.eqb (ndim (astype_uint8 f)) 2) eqn:H2; [done|].
  apply Nat.eqb_neq in H2.
  destruct (last (fshape (astype_uint8 f))) as [c|] eqn:Hl; simpl; [|done].
  destruct (Nat.eqb c 4) eqn:H4; [|destruct (negb (Nat.eqb c 3)) eqn:H3]; intros H.
  - destruct (Image_fromarray (strip_alpha (astype_uint8 f))) as [i|e] eqn:Hi;
      simpl in H; [|discriminate].
    injection H as <-. rewrite (Image_fromarray_ok _ _ Hi). cbn [img_array].
    apply Nat.eqb_eq in H4. subst c. unfold strip_alpha. rewrite Hl.
    unfold ndim in *.
    change (fshape (astype_uint8 f)) with (fshape f) in *.
    unfold byte_frame. rewrite fshape_mk, fpix_mk. split_and!.
    + apply last_Some in Hl as [l' Hl']. rewrite Hl' in H2 |- *.
      rewrite removelast_last. rewrite length_app in *. simpl in *. lia.
    + by rewrite last_snoc.
    + by apply slice_channels_forall.
  - discriminate.
  - destruct (Image_fromarray (astype_uint8 f)) as [i|e] eqn:Hi; simpl in H; [|discriminate].
    injection H as <-. rewrite (Image_fromarray_ok _ _ Hi). cbn [img_array].
    apply negb_false_iff, Nat.eqb_eq in H3. subst c. done.
Qed.

(** Every image handed to the processor has three channels and byte pixels
    (values are wrapped by [astype("uint8")], RGBA frames lose their alpha
    channel), is not rank-2, and its index is a frame index. *)
Theorem valid_images_rgb_bytes (frame_data : list frame) (valid : list (nat * image))
    (i : nat) (img : image) :
  normalize frame_data = Ok valid -> (i, img) ∈ valid ->
  (i < length frame_data)%nat /\ ndim (img_array img) <> 2%nat /\
  last (fshape (img_array img)) = Some 3%nat /\ Forall (fun z => 0 <= z < 256) (fpix (img_array img)).
Proof.
  intros Hn Hin. destruct (normalize_from_ok 0 frame_data valid Hn) as (_ & _ & Hv & _).
  destruct (Hv i img Hin) as (f & Hf & Hc & _). rewrite Nat.sub_0_r in Hf.
  split; [by apply lookup_lt_Some in Hf|]. by apply classify_valid in Hc.
Qed.

Lemma valid_images_rgb_bytes_witness :
  (2 < 3)%nat /\ ndim (fromarray (strip_alpha (astype_uint8 Sample.rgba))).(img_array) <> 2%nat.
Proof.
  destruct (valid_images_rgb_bytes [Sample.rgb; Sample.gray; Sample.rgba]
    [(0%nat, fromarray (astype_uint8 Sample.rgb)); (2%nat, fromarray (strip_alpha (astype_uint8 Sample.rgba)))]
    2 (fromarray (strip_alpha (astype_uint8 Sample.rgba))))
    as (Hi & Hnd & _ & _).
  - vm_compute. reflexivity.
  - apply list_elem_of_further, list_elem_of_here.
  - split; [exact Hi|exact Hnd].
Defined.



Lemma frame_message_note (nm : string) (i : nat) (f : frame) :
  Forall frame_note (option_list (frame_message nm i f)).
Proof. unfold frame_message. repeat case_match; repeat constructor. Qed.

Lemma frame_log_notes (nm : string) (i : nat) (fs : list frame) :
  Forall frame_note (frame_log nm i fs).
Proof.
  revert i. induction fs as [|f fs IH]; intros i; simpl; [constructor|].
  apply Forall_app. split; [|apply frame_message_note].
  destruct (classify f); [apply IH|constructor].
Qed.

(** The three ways one pass of the body can end. *)
Lemma process_chunk_cases (E : env) (c : path) (w : world) :
  let '(r, w') := process_chunk E c w in
  exists mid, Forall frame_note mid /\
  match r with
  | Ok _ =>
      (exists nm, w' = mkWorld (dst w) (EvSkipExisting nm :: trace w) (opened w) /\ mid = []) \/
      (exists nm, w' = mkWorld (dst w) (EvNoValid nm :: mid ++ trace w) (c :: opened w)) \/
      (exists rel p ar fd ed, src_fs E !! c = Some ar /\ frame_tensor ar = Ok fd /\
         dst w !! p = None /\
         w' = mkWorld (<[p := Archive fd ed]> (dst w)) (EvProcessed rel p :: mid ++ trace w)
                      (c :: opened w))
  | Err e =>
      trace w' = mid ++ trace w /\
      (dst w' = dst w \/ exists p, dst w !! p = None /\ dst w' = <[p := Partial]> (dst w))
  end.
Proof.
  unfold_chunk.
  destruct (chunk_paths_of _ _ c) as [[[[rel nm] odir] p]|e] eqn:Hp; simpl.
  2: { exists []. split; [constructor|]. split; [done|by left]. }
  destruct (bool_decide (is_Some (dst w !! p))) eqn:Hex; simpl.
  { exists []. split; [constructor|]. left. by exists nm. }
  apply bool_decide_eq_false in Hex.
  destruct (src_fs E !! c) as [ar|] eqn:Hs; simpl.
  2: { exists []. split; [constructor|]. split; [done|by left]. }
  destruct (frame_tensor ar) as [fd|e] eqn:Hf; simpl.
  2: { exists []. split; [constructor|]. split; [done|by left]. }
  rewrite normalize_loop_0. simpl.
  pose proof (frame_log_notes nm 0 fd) as Hnotes.
  destruct (normalize fd) as [valid|e] eqn:Hn; simpl.
  2: { exists (frame_log nm 0 fd). split; [done|]. split; [done|by left]. }
  destruct (map snd valid) as [|img imgs] eqn:Him; simpl.
  { exists (frame_log nm 0 fd). split; [done|]. right; left. by exists nm. }
  destruct (tower_fail E _) as [e|] eqn:Ht; simpl.
  { exists (frame_log nm 0 fd). split; [done|]. split; [done|by left]. }
  destruct (realign _ _ _) as [ed|e] eqn:Hr; simpl.
  2: { exists (frame_log nm 0 fd). split; [done|]. split; [done|by left]. }
  destruct (save_fail E p) as [[[] e]|] eqn:Hsv; simpl.
  - exists (frame_log nm 0 fd). split; [done|]. split; [done|].
    right. exists p. split; [by apply eq_None_not_Some|done].
  - exists (frame_log nm 0 fd). split; [done|]. split; [done|by left].
  - exists (frame_log nm 0 fd). split; [done|].
    right; right. exists rel, p, ar, fd, ed. split_and!; try done. by apply eq_None_not_Some.
Qed.

(** Every chunk the loop visits without an uncaught interrupt gets exactly
    one outcome line, after the per-frame lines (grayscale, alpha dropped,
    unexpected channel count) of the frames it examined: skipped (no other
    line, nothing written), no valid frames (nothing written), processed
    (only after the complete archive of its own frame tensor was saved at a
    path that was free), or failed with the chunk's path and the error
    (nothing written, or a partial file left at a path that was free). *)
Theorem chunk_outcome_logged (E : env) (c : path) (w w' : world) :
  try_chunk E c w = (Ok tt, w') ->
  exists mid, Forall frame_note mid /\
  ((exists nm, trace w' = EvSkipExisting nm :: trace w /\ mid = [] /\ dst w' = dst w) \/
   (exists nm, trace w' = EvNoValid nm :: mid ++ trace w /\ dst w' = dst w) \/
   (exists rel p ar fd ed, trace w' = EvProcessed rel p :: mid ++ trace w /\
      src_fs E !! c = Some ar /\ frame_tensor ar = Ok fd /\
      dst w !! p = None /\ dst w' = <[p := Archive fd ed]> (dst w)) \/
   (exists e, trace w' = EvFailed c e :: mid ++ trace w /\ is_Exception e = true /\
      (dst w' = dst w \/ exists p, dst w !! p = None /\ dst w' = <[p := Partial]> (dst w)))).
Proof.
  pose proof (process_chunk_cases E c w) as Hc. unfold try_chunk.
  destruct (process_chunk E c w) as [[[]|e] w1].
  - intros H; injection H as <-. destruct Hc as (mid & Hmid & Hcase). exists mid. split; [done|].
    destruct Hcase as [(nm & -> & ->)|[(nm & ->)|(rel & p & ar & fd & ed & Hs & Hf & Hp & ->)]].
    + left. by exists nm.
    + right; left. by exists nm.
    + right; right; left. by exists rel, p, ar, fd, ed.
  - destruct (is_Exception e) eqn:He; [|done]. intros H; injection H as <-.
    destruct Hc as (mid & Hmid & Htr & Hd). exists mid. split; [done|].
    right; right; right. exists e. simpl. by rewrite Htr.
Qed.

Lemma chunk_outcome_logged_witness :
  let w' := snd (try_chunk Sample.env4 Sample.gray_chunk Sample.empty_world) in
  try_chunk Sample.env4 Sample.gray_chunk Sample.empty_world = (Ok tt, w') /\
  exists mid, Forall frame_note mid /\ length mid = 2%nat /\
    trace w' = EvNoValid "g" :: mid.
Proof.
  intros w'.
  assert (H : try_chunk Sample.env4 Sample.gray_chunk Sample.empty_world = (Ok tt, w'))
    by (vm_compute; reflexivity).
  split; [exact H|].
  destruct (chunk_outcome_logged _ _ _ _ H) as (mid & Hmid & _).
  exists [EvGrayscale "g" 1; EvGrayscale "g" 0].
  split; [repeat constructor|]. split; [reflexivity|]. vm_compute. reflexivity.
Defined.

Lemma try_chunk_trace (E : env) (c : path) (w : world) :
  exists new, trace (snd (try_chunk E c w)) = new ++ trace w.
Proof.
  pose proof (process_chunk_cases E c w) as Hc. unfold try_chunk.
  destruct (process_chunk E c w) as [[[]|e] w1]; destruct Hc as (mid & _ & Hcase).
  - destruct Hcase as [(nm & -> & ->)|[(nm & ->)|(rel & p & ar & fd & ed & _ & _ & _ & ->)]].
    + by exists [EvSkipExisting nm].
    + by exists (EvNoValid nm :: mid).
    + by exists (EvProcessed rel p :: mid).
  - destruct Hcase as [Htr _]. destruct (is_Exception e); simpl.
    + exists (EvFailed c e :: mid). by rewrite Htr.
    + by exists mid.
Qed.

Lemma try_chunk_keeps (E : env) (c q : path) (w : world) (x : ofile) :
  dst w !! q = Some x -> dst (snd (try_chunk E c w)) !! q = Some x.
Proof.
  rewrite try_chunk_dst. intros Hq.
  destruct (process_chunk_dst E c w) as [-> | (p & y & _ & Hp & ->)]; [done|].
  rewrite lookup_insert_ne; [done|]. intros ->. congruence.
Qed.

Lemma run_keeps (E : env) (cs : list path) (w : world) (q : path) (x : ofile) :
  dst w !! q = Some x -> dst (snd (run E cs w)) !! q = Some x.
Proof.
  revert w. induction cs as [|c cs IH]; intros w Hq; [done|].
  rewrite run_cons. pose proof (try_chunk_keeps E c q w x Hq) as H.
  destruct (try_chunk E c w) as [[]w']; simpl in *; [by apply IH|done].
Qed.

Lemma run_trace (E : env) (cs : list path) (w : world) :
  exists new, trace (snd (run E cs w)) = new ++ trace w.
Proof.
  revert w. induction cs as [|c cs IH]; intros w; [by exists []|].
  rewrite run_cons. destruct (try_chunk_trace E c w) as [n1 H1].
  destruct (try_chunk E c w) as [[]w']; simpl in *.
  - destruct (IH w') as [n2 H2]. exists (n2 ++ n1). by rewrite H2, H1, app_assoc.
  - by exists n1.
Qed.

(** A run never deletes or overwrites a file that is already in the
    destination, and only adds lines to the log. *)
Theorem run_only_adds (E : env) (cs : list path) (w : world) :
  (forall q x, dst w !! q = Some x -> dst (snd (run E cs w)) !! q = Some x) /\
  exists new, trace (snd (run E cs w)) = new ++ trace w.
Proof. split; [intros q x; apply run_keeps|apply run_trace]. Qed.

(** Every file a run creates is at the output path of one of its chunks,
    and is what that chunk's body writes there. *)
Theorem run_new_files (E : env) (cs : list path) (w : world) (q : path) (x : ofile) :
  dst w !! q = None -> dst (snd (run E cs w)) !! q = Some x ->
  exists c, In c cs /\ writes E c q x.
Proof.
  revert w. induction cs as [|c cs IH]; intros w Hnone Hx; [simpl in Hx; congruence|].
  rewrite run_cons in Hx.
  destruct (dst (snd (try_chunk E c w)) !! q) as [y|] eqn:Hy.
  - pose proof (try_chunk_new_file E c q w y Hnone Hy) as Hw.
    assert (y = x) as ->.
    { destruct (try_chunk E c w) as [[]w']; simpl in *.
      - pose proof (run_keeps E cs w' q y Hy). congruence.
      - congruence. }
    exists c. split; [left|]; done.
  - destruct (try_chunk E c w) as [[]w'] eqn:Ht; simpl in *; [|congruence].
    destruct (IH w' Hy Hx) as (c' & Hin & Hw). exists c'. split; [right|]; done.
Qed.

Lemma run_new_files_witness :
  dst Sample.empty_world !! Sample.chunk_out = None /\
  exists c, In c [Sample.chunk; Sample.gray_chunk] /\
    writes Sample.env4 c Sample.chunk_out
      (Archive [Sample.rgb; Sample.gray; Sample.rgba] [[10; 20; 30]; [0; 0; 0]; [1; 2; 3]]).
Proof.
  split; [reflexivity|].
  apply (run_new_files Sample.env4 [Sample.chunk; Sample.gray_chunk] Sample.empty_world);
    vm_compute; reflexivity.
Defined.

Lemma scatter_ok (pairs : list (nat * vec)) (l : list (option vec)) :
  Forall (fun pr => (pr.1 < length l)%nat) pairs -> exists l', scatter pairs l = Ok l'.
Proof.
  revert l. induction pairs as [|[i v] pairs IH]; intros l Hall; simpl; [by eexists|].
  apply Forall_cons in Hall as [Hi Hall]. simpl in Hi.
  rewrite (proj2 (Nat.ltb_lt _ _) Hi). apply IH.
  eapply Forall_impl; [exact Hall|]. intros pr. by rewrite length_insert.
Qed.

Lemma map_except_fill_ok (pooled : list vec) (l : list (option vec)) :
  pooled <> [] -> exists rows, map_except (fill_zero pooled) l = Ok rows.
Proof.
  intros Hp. induction l as [|o l [rows IH]]; simpl; [by eexists|].
  rewrite IH. destruct o as [v|]; simpl; [by eexists|].
  destruct pooled as [|p0 ps]; [done|]. simpl. by eexists.
Qed.

(** [realign] cannot fail once the normalizer accepted the frames, at least
    one is Valid and the tower returned at least one row. *)
Lemma realign_ok (frame_data : list frame) (valid : list (nat * image)) (pooled : list vec) :
  normalize frame_data = Ok valid -> valid <> [] -> pooled <> [] ->
  exists ed, realign (length frame_data) (map fst valid) pooled = Ok ed /\
    length ed = length frame_data.
Proof.
  intros Hn Hv Hp. destruct (normalize_from_ok 0 frame_data valid Hn) as (_ & _ & Hin & _).
  assert (Hb : Forall (fun pr => (pr.1 < length (replicate (length frame_data) (@None vec)))%nat)
                 (zip (map fst valid) pooled)).
  { apply Forall_forall. intros [i v] Hiv. rewrite length_replicate. simpl.
    assert (Hi : i ∈ map fst valid).
    { apply (zip_fst_elem _ pooled). apply list_elem_of_fmap. by exists (i, v). }
    apply list_elem_of_fmap in Hi as ([j img] & -> & Hj).
    destruct (Hin j img Hj) as (f & Hf & _). rewrite Nat.sub_0_r in Hf.
    by apply lookup_lt_Some in Hf. }
  destruct (scatter_ok _ _ Hb) as [emb Hs].
  destruct (map_except_fill_ok pooled emb Hp) as [rows Hm].
  pose proof (scatter_length _ _ _ Hs) as Hl1. rewrite length_replicate in Hl1.
  pose proof (proj1 (map_except_fill _ _ _ Hm)) as Hl2.
  assert (Hfd : frame_data <> []).
  { intros ->. unfold normalize in Hn. simpl in Hn. injection Hn as <-. done. }
  unfold realign. rewrite Hs. simpl. rewrite Hm. simpl.
  destruct rows as [|r rows]; simpl in *.
  - destruct frame_data; [done|]. simpl in *. lia.
  - exists (r :: rows). split; [done|]. simpl. lia.
Qed.

(** When a chunk's output is absent, it loads, at least one frame is Valid,
    the processor yields at least one row, and neither the encoder nor the
    save fails, the chunk is written: one embedding row per frame, stored
    with its frame tensor, and logged as processed after the per-frame
    lines. *)
Theorem chunk_written_without_failures (E : env) (c : path) (w : world)
    rel_path chunk_name output_dir output_path ar frame_data valid :
  chunk_paths_of (BASE_DIR E) (OUTPUT_DIR E) c = Ok (rel_path, chunk_name, output_dir, output_path) ->
  dst w !! output_path = None ->
  src_fs E !! c = Some ar ->
  frame_tensor ar = Ok frame_data ->
  normalize frame_data = Ok valid ->
  valid <> [] ->
  flatten (processor E (map snd valid)) <> [] ->
  tower_fail E (flatten (processor E (map snd valid))) = None ->
  save_fail E output_path = None ->
  exists embedding_data, length embedding_data = length frame_data /\
    try_chunk E c w =
      (Ok tt, mkWorld (<[output_path := Archive frame_data embedding_data]> (dst w))
                (EvProcessed rel_path output_path :: frame_log chunk_name 0 frame_data ++ trace w)
                (c :: opened w)).
Proof.
  intros Hp Hnone Hs Hf Hn Hv Hpx Ht Hsv.
  assert (Hpooled : map (vision_tower E) (flatten (processor E (map snd valid))) <> []).
  { by destruct (flatten _). }
  destruct (realign_ok frame_data valid _ Hn Hv Hpooled) as (ed & Hr & Hlen).
  exists ed. split; [done|].
  assert (Hpc : process_chunk E c w =
      (Ok tt, mkWorld (<[output_path := Archive frame_data ed]> (dst w))
                (EvProcessed rel_path output_path :: frame_log chunk_name 0 frame_data ++ trace w)
                (c :: opened w))).
  { unfold_chunk. rewrite Hp. simpl.
    rewrite bool_decide_eq_false_2 by (rewrite Hnone; apply is_Some_None).
    simpl. rewrite Hs. simpl. rewrite Hf. simpl. rewrite normalize_loop_0, Hn. simpl.
    destruct (map snd valid) as [|img imgs] eqn:Him; [by destruct valid|]. simpl.
    rewrite Ht. simpl. rewrite Hr. simpl. by rewrite Hsv. }
  unfold try_chunk. by rewrite Hpc.
Qed.

Lemma chunk_written_without_failures_witness :
  exists embedding_data, length embedding_data = 1%nat /\
    try_chunk Sample.env4 Sample.pipe_chunk Sample.empty_world =
      (Ok tt, mkWorld {[Sample.collision_out := Archive [Sample.rgb] embedding_data]}
                [EvProcessed ["a|b.safetensors"] Sample.collision_out] [Sample.pipe_chunk]).
Proof.
  destruct (chunk_written_without_failures Sample.env4 Sample.pipe_chunk Sample.empty_world
    ["a|b.safetensors"] "a_b" ["out"] Sample.collision_out [("frames", [Sample.rgb])] [Sample.rgb]
    [(0%nat, fromarray (astype_uint8 Sample.rgb))])
    as (ed & Hlen & Hrun); try (vm_compute; first [reflexivity|discriminate]).
  exists ed. split; [exact Hlen|]. rewrite Hrun. reflexivity.
Defined.

(* ---- widths of the written rows ---- *)

Lemma scatter_in (pooled : list vec) (pairs : list (nat * vec)) (l l' : list (option vec)) :
  Forall (fun pr => pr.2 ∈ pooled) pairs -> Forall (opt_in pooled) l ->
  scatter pairs l = Ok l' -> Forall (opt_in pooled) l'.
Proof.
  revert l. induction pairs as [|[i v] pairs IH]; intros l Hpr Hl; simpl.
  { by intros H; injection H as <-. }
  apply Forall_cons in Hpr as [Hv Hpr].
  destruct (Nat.ltb i (length l)); [|done].
  apply IH; [done|]. by apply Forall_insert.
Qed.

Lemma map_except_fill_rows (pooled : list vec) (l : list (option vec)) (rows : list vec) :
  Forall (opt_in pooled) l -> map_except (fill_zero pooled) l = Ok rows ->
  Forall (fun r => r ∈ pooled \/ exists p0 rest, pooled = p0 :: rest /\ r = zeros_like p0) rows.
Proof.
  revert rows. induction l as [|o l IH]; intros rows Hl; simpl.
  { intros H; injection H as <-. constructor. }
  apply Forall_cons in Hl as [Ho Hl].
  destruct (fill_zero pooled o) as [v|e] eqn:Hv; simpl; [|done].
  destruct (map_except (fill_zero pooled) l) as [vs|e]; simpl; [|done].
  intros H; injection H as <-. constructor; [|by apply IH].
  destruct o as [v'|]; simpl in *.
  - injection Hv as <-. by left.
  - destruct pooled as [|p0 rest]; [done|]. injection Hv as <-. right. by exists p0, rest.
Qed.

Lemma realign_rows (n : nat) (idxs : list nat) (pooled ed : list vec) :
  realign n idxs pooled = Ok ed ->
  Forall (fun r => r ∈ pooled \/ exists p0 rest, pooled = p0 :: rest /\ r = zeros_like p0) ed.
Proof.
  unfold realign.
  destruct (scatter _ _) as [emb|e] eqn:Hs; simpl; [|done].
  destruct (map_except _ _) as [rows|e] eqn:Hm; simpl; [|done].
  unfold torch_stack. destruct rows as [|r rows]; [done|]. intros H; injection H as <-.
  apply (map_except_fill_rows pooled emb); [|done].
  apply (scatter_in pooled (zip idxs pooled) (replicate n None)); [| |done].
  - apply Forall_forall. intros [i v] Hiv. simpl. by apply elem_of_zip_r in Hiv.
  - apply Forall_replicate. done.
Qed.

(** If the tower always returns rows of width [D], every row of a written
    [embedding_data] has width [D], the zero rows included: the archive
    holds an [N x D] matrix. *)
Theorem written_embeddings_width (E : env) (c p : path) (w : world) (D : nat)
    (frame_data : list frame) (embedding_data : list vec) :
  (forall q, length (vision_tower E q) = D) ->
  dst w !! p = None ->
  dst (snd (try_chunk E c w)) !! p = Some (Archive frame_data embedding_data) ->
  Forall (fun r => length r = D) embedding_data.
Proof.
  intros HD Hnone Hx.
  destruct (try_chunk_new_file E c p w _ Hnone Hx)
    as (rel & nm & odir & ar & fd & valid & ed & _ & _ & _ & _ & _ & _ & Hr & Hsv).
  destruct Hsv as [[_ Heq]|(e & _ & Heq)]; [|discriminate].
  injection Heq as -> ->.
  eapply Forall_impl; [exact (realign_rows _ _ _ _ Hr)|].
  intros r [Hin|(p0 & rest & Hpool & ->)].
  - apply list_elem_of_fmap in Hin as (q & -> & _). apply HD.
  - unfold zeros_like. rewrite length_replicate.
    assert (Hp0 : p0 ∈ map (vision_tower E) (flatten (processor E (map snd valid))))
      by (rewrite Hpool; apply list_elem_of_here).
    apply list_elem_of_fmap in Hp0 as (q & -> & _). apply HD.
Qed.

Lemma written_embeddings_width_witness :
  dst (snd (try_chunk Sample.env_pool Sample.chunk Sample.empty_world)) !! Sample.chunk_out
    = Some (Archive [Sample.rgb; Sample.gray; Sample.rgba] [[60; 3]; [0; 0]; [6; 3]]) /\
  Forall (fun r => length r = 2%nat) [[60; 3]; [0; 0]; [6; 3]].
Proof.
  assert (Hx : dst (snd (try_chunk Sample.env_pool Sample.chunk Sample.empty_world)) !! Sample.chunk_out
    = Some (Archive [Sample.rgb; Sample.gray; Sample.rgba] [[60; 3]; [0; 0]; [6; 3]]))
    by (vm_compute; reflexivity).
  split; [exact Hx|].
  exact (written_embeddings_width Sample.env_pool Sample.chunk Sample.chunk_out Sample.empty_world 2
           _ _ (fun q => eq_refl) eq_refl Hx).
Defined.


(** With a processor that returns one crop per image, the written row of
    every Valid frame is the tower's output for that frame's image. *)
Theorem written_rows_4d (E : env) (c p : path) (w : world) (frame_data : list frame)
    (embedding_data : list vec) (valid : list (nat * image)) (i : nat) (img : image) :
  processor_5d E = false ->
  dst w !! p = None ->
  dst (snd (try_chunk E c w)) !! p = Some (Archive frame_data embedding_data) ->
  normalize frame_data = Ok valid -> (i, img) ∈ valid ->
  embedding_data !! i = Some (vision_tower E (patch_of E img)).
Proof.
  intros H4 Hnone Hx Hn Hin.
  destruct (try_chunk_new_file E c p w _ Hnone Hx)
    as (rel & nm & odir & ar & fd & valid' & ed & _ & _ & _ & Hn' & _ & _ & Hr & Hsv).
  destruct Hsv as [[_ Heq]|(e & _ & Heq)]; [|discriminate].
  injection Heq as <- <-. rewrite Hn in Hn'. injection Hn' as <-.
  by apply (realign_4d_rows E frame_data valid).
Qed.

Lemma written_rows_4d_witness :
  ([[10; 20; 30]; [0; 0; 0]; [1; 2; 3]] : list vec) !! 2%nat = Some [1; 2; 3].
Proof.
  apply (written_rows_4d Sample.env4 Sample.chunk Sample.chunk_out Sample.empty_world
           [Sample.rgb; Sample.gray; Sample.rgba] _
           [(0%nat, fromarray (astype_uint8 Sample.rgb));
            (2%nat, fromarray (strip_alpha (astype_uint8 Sample.rgba)))]
           2 (fromarray (strip_alpha (astype_uint8 Sample.rgba)))).
  - reflexivity.
  - reflexivity.
  - vm_compute. reflexivity.
  - vm_compute. reflexivity.
  - apply list_elem_of_further, list_elem_of_here.
Defined.

(* ---- discovery ---- *)

Lemma star_suffix_app (suf s : string) :
  star_suffix suf s = true -> exists pre, s = String.append pre suf.
Proof.
  induction s as [|ch s IH]; cbn [star_suffix].
  - intros [H|H]%orb_true_iff; [apply String.eqb_eq in H as <-; by exists ""|done].
  - intros [H|H]%orb_true_iff.
    + apply String.eqb_eq in H as <-. by exists "".
    + destruct (IH H) as [pre ->]. by exists (String ch pre).
Qed.

Lemma strictly_under_app (root p : path) :
  strictly_under root p = true -> exists rel, rel <> [] /\ p = root ++ rel.
Proof.
  revert p. induction root as [|r root IH]; intros [|x p]; simpl; try done.
  - intros _. by exists (x :: p).
  - intros [Hr Hp]%andb_true_iff. apply String.eqb_eq in Hr as ->.
    destruct (IH p Hp) as (rel & Hrel & ->). by exists rel.
Qed.

Lemma rfind_dot_app (s t : string) :
  rfind_dot (String.append s t) =
  match rfind_dot t with Some i => Some (String.length s + i)%nat | None => rfind_dot s end.
Proof.
  induction s as [|ch s IH].
  - change (String.append "" t) with t. destruct (rfind_dot t); reflexivity.
  - change (String.append (String ch s) t) with (String ch (String.append s t)).
    cbn [rfind_dot]. rewrite IH. by destruct (rfind_dot t).
Qed.

Lemma string_length_app (s t : string) :
  String.length (String.append s t) = (String.length s + String.length t)%nat.
Proof.
  induction s as [|ch s IH]; [reflexivity|].
  change (String.append (String ch s) t) with (String ch (String.append s t)).
  cbn [String.length]. by rewrite IH.
Qed.

Lemma substring_app (s t : string) : String.substring 0 (String.length s) (String.append s t) = s.
Proof.
  induction s as [|ch s IH]; [by destruct t|].
  change (String.append (String ch s) t) with (String ch (String.append s t)).
  cbn [String.length String.substring]. by rewrite IH.
Qed.

Lemma stem_safetensors (p : path) (s : string) :
  name p = String.append s ".safetensors" ->
  stem p = if String.eqb s "" then ".safetensors" else s.
Proof.
  intros Hn. unfold stem. rewrite Hn, rfind_dot_app. simpl.
  rewrite string_length_app. simpl.
  destruct s as [|ch s']; simpl; [done|].
  replace (Nat.ltb (S (String.length s' + 0)) (String.length s' + 12 - 0)) with true
    by (symmetry; apply Nat.ltb_lt; lia).
  rewrite Nat.add_0_r, substring_app. done.
Qed.

(** Every path the walk yields lies strictly below [BASE_DIR] and is named
    [s + ".safetensors"], so line 39 never raises for it; the output goes
    below [OUTPUT_DIR], and the chunk name is [s] with "|" replaced, except
    for a file named exactly ".safetensors", whose stem is the whole name. *)
Theorem discovered_chunk_paths (BASE_DIR OUTPUT_DIR : path) (tree : list path) (c : path) :
  In c (rglob BASE_DIR tree) ->
  exists rel s, rel <> [] /\ c = BASE_DIR ++ rel /\ name c = String.append s ".safetensors" /\
    let chunk_name := sanitize (if String.eqb s "" then ".safetensors" else s) in
    let output_dir := OUTPUT_DIR ++ parent (path_of_str (sanitize (str_of_path rel))) in
    chunk_paths_of BASE_DIR OUTPUT_DIR c
      = Ok (rel, chunk_name, output_dir, output_dir ++ [String.append chunk_name SUFFIX]).
Proof.
  unfold rglob. intros Hin. apply filter_In in Hin as [_ Hb].
  apply andb_true_iff in Hb as [Hu Hs].
  destruct (strictly_under_app _ _ Hu) as (rel & Hrel & Hc).
  destruct (star_suffix_app _ _ Hs) as [s Hn].
  exists rel, s. split_and!; [done|done|done|].
  unfold chunk_paths_of. rewrite Hc, relative_to_app. simpl.
  rewrite <- Hc, (stem_safetensors c s Hn). done.
Qed.

Lemma discovered_chunk_paths_witness :
  In ["base"; "a|b.safetensors"] (rglob ["base"] Sample.tree) /\
  exists rel s, rel <> [] /\ ["base"; "a|b.safetensors"] = ["base"] ++ rel /\
    name ["base"; "a|b.safetensors"] = String.append s ".safetensors".
Proof.
  assert (H : In ["base"; "a|b.safetensors"] (rglob ["base"] Sample.tree)).
  { vm_compute. right; right; right; left. reflexivity. }
  split; [exact H|].
  destruct (discovered_chunk_paths ["base"] ["out"] Sample.tree _ H) as (rel & s & H1 & H2 & H3 & _).
  exists rel, s. split_and!; assumption.
Defined.


Lemma sanitize_char_dot (ch : ascii) :
  Ascii.eqb (if Ascii.eqb ch "|"%char then "_"%char else ch) "."%char = Ascii.eqb ch "."%char.
Proof.
  destruct (Ascii.eqb ch "|"%char) eqn:H; [|done].
  apply Ascii.eqb_eq in H as ->. reflexivity.
Qed.

Lemma rfind_dot_sanitize (s : string) : rfind_dot (sanitize s) = rfind_dot s.
Proof.
  unfold sanitize. induction s as [|ch s IH]; [done|].
  cbn [replace_char rfind_dot]. rewrite IH. by rewrite sanitize_char_dot.
Qed.

Lemma length_sanitize (s : string) : String.length (sanitize s) = String.length s.
Proof. unfold sanitize. induction s as [|ch s IH]; [done|]. cbn. by rewrite IH. Qed.

Lemma substring_sanitize (i : nat) (s : string) :
  String.substring 0 i (sanitize s) = sanitize (String.substring 0 i s).
Proof.
  unfold sanitize. revert i. induction s as [|ch s IH]; intros [|i]; try done.
  cbn [replace_char String.substring]. by rewrite IH.
Qed.

Lemma sanitize_stem (p : path) : sanitize (stem p) = stem [sanitize (name p)].
Proof.
  unfold stem. change (name [sanitize (name p)]) with (sanitize (name p)).
  rewrite rfind_dot_sanitize, length_sanitize.
  destruct (rfind_dot (name p)) as [i|]; [|done].
  destruct (_ && _); [|done]. by rewrite substring_sanitize.
Qed.

Lemma last_map_opt {A B} (f : A -> B) (l : list A) : last (map f l) = option_map f (last l).
Proof. induction l as [|x [|y l] IH]; [done|done|]. exact IH. Qed.

Lemma name_map_sanitize (r : path) : sanitize (name r) = name (map sanitize r).
Proof.
  unfold name. rewrite last_map_opt. by destruct (last r).
Qed.

Lemma sanitize_str_of_path (r : path) : sanitize (str_of_path r) = str_of_path (map sanitize r).
Proof. destruct r as [|x r]; [done|]. unfold str_of_path. apply sanitize_join. Qed.

(** The output path of a chunk depends on its relative path only through
    that path with "|" replaced by "_" in every component: chunks whose
    relative paths agree after that replacement, in directory names as
    well as in the file name, get the same output path. *)
Theorem output_path_sanitized (BASE_DIR OUTPUT_DIR r1 r2 : path) :
  map sanitize r1 = map sanitize r2 ->
  output_path_of BASE_DIR OUTPUT_DIR (BASE_DIR ++ r1) = output_path_of BASE_DIR OUTPUT_DIR (BASE_DIR ++ r2).
Proof.
  intros Hr. unfold output_path_of, chunk_paths_of. rewrite !relative_to_app. simpl.
  rewrite !sanitize_str_of_path, Hr.
  destruct r1 as [|x1 r1], r2 as [|x2 r2]; try done.
  rewrite !stem_app by done. rewrite !sanitize_stem, !name_map_sanitize, Hr. done.
Qed.

Lemma output_path_sanitized_witness :
  output_path_of ["base"] ["out"] ["base"; "x|y"; "c.safetensors"]
    = output_path_of ["base"] ["out"] ["base"; "x_y"; "c.safetensors"] /\
  output_path_of ["base"] ["out"] ["base"; "x|y"; "c.safetensors"]
    = Ok ["out"; "x_y"; "c_embedded.safetensors"].
Proof.
  split.
  - exact (output_path_sanitized ["base"] ["out"] ["x|y"; "c.safetensors"] ["x_y"; "c.safetensors"]
             eq_refl).
  - vm_compute. reflexivity.
Defined.

(* ---- frames of one shape ---- *)

(** Whether [classify] raises, drops or keeps a frame depends on its shape
    only. *)
Lemma classify_same_shape (f g : frame) :
  fshape f = fshape g ->
  (forall img, classify f = Ok (Valid img) -> exists img', classify g = Ok (Valid img')) /\
  (forall r, classify f = Ok (Dropped r) -> classify g = Ok (Dropped r)).
Proof.
  destruct f as [sh px], g as [sh' px']. simpl. intros <-.
  unfold classify, Image_fromarray, strip_alpha, astype_uint8, ndim, shape_last. cbn [fshape fpix].
  destruct (Nat.eqb (length sh) 2); [split; intros; simplify_eq; eauto|].
  destruct (last sh) as [c|]; simpl; [|split; intros; discriminate].
  destruct (Nat.eqb c 4); [|destruct (negb (Nat.eqb c 3)); [split; intros; simplify_eq; eauto|]];
    cbn [fshape]; destruct (fromarray_mode _); simpl; try destruct (Nat.ltb _ _); simpl;
    split; intros; simplify_eq; eauto.
Qed.

Lemma normalize_from_all_dropped (i : nat) (fs : list frame) (valid : list (nat * image)) :
  Forall (fun g => exists r, classify g = Ok (Dropped r)) fs ->
  normalize_from i fs = Ok valid -> valid = [].
Proof.
  revert i. induction fs as [|f fs IH]; intros i Hall; simpl; [by intros H; injection H|].
  apply Forall_cons in Hall as [[r Hr] Hall]. rewrite Hr. simpl. by apply IH.
Qed.

Lemma normalize_from_all_valid (i : nat) (fs : list frame) (valid : list (nat * image)) :
  Forall (fun g => exists img, classify g = Ok (Valid img)) fs ->
  normalize_from i fs = Ok valid -> map fst valid = seq i (length fs).
Proof.
  revert i valid. induction fs as [|f fs IH]; intros i valid Hall; simpl.
  { by intros H; injection H as <-. }
  apply Forall_cons in Hall as [[img Hi] Hall]. rewrite Hi. simpl.
  destruct (normalize_from (S i) fs) as [vs|e] eqn:Hn; simpl; [|discriminate].
  intros H; injection H as <-. simpl. f_equal. by apply IH.
Qed.

(** The frames of one tensor share one shape, so within a chunk the
    normalizer keeps every frame or none: the Valid indices are either
    empty or all of [0 .. N-1]. *)
Theorem uniform_frames_all_or_none (sh : list nat) (frame_data : list frame)
    (valid : list (nat * image)) :
  Forall (fun f => fshape f = sh) frame_data ->
  normalize frame_data = Ok valid ->
  valid = [] \/ map fst valid = seq 0 (length frame_data).
Proof.
  intros Hsh Hn. destruct frame_data as [|f fs]; [left; by injection Hn|].
  pose proof (Forall_inv Hsh) as Hf.
  assert (Hsame : Forall (fun g => fshape f = fshape g) (f :: fs)).
  { eapply Forall_impl; [exact Hsh|]. intros g Hg. by rewrite Hf, Hg. }
  unfold normalize in Hn. pose proof Hn as Hn'. simpl in Hn'.
  destruct (classify f) as [[img|r]|e] eqn:Hc; [right|left|discriminate].
  - apply (normalize_from_all_valid 0 (f :: fs)); [|done].
    eapply Forall_impl; [exact Hsame|]. intros g Hg. by apply (proj1 (classify_same_shape f g Hg) img).
  - apply (normalize_from_all_dropped 0 (f :: fs)); [|done].
    eapply Forall_impl; [exact Hsame|]. intros g Hg. exists r. by apply (proj2 (classify_same_shape f g Hg)).
Qed.

Lemma uniform_frames_all_or_none_witness :
  normalize [Sample.rgb; Sample.rgb']
    = Ok [(0%nat, fromarray Sample.rgb); (1%nat, fromarray Sample.rgb')] /\
  map fst [(0%nat, fromarray Sample.rgb); (1%nat, fromarray Sample.rgb')] = seq 0 2.
Proof.
  assert (Hn : normalize [Sample.rgb; Sample.rgb']
               = Ok [(0%nat, fromarray Sample.rgb); (1%nat, fromarray Sample.rgb')])
    by (vm_compute; reflexivity).
  split; [exact Hn|].
  destruct (uniform_frames_all_or_none [1; 1; 3]%nat [Sample.rgb; Sample.rgb']
              [(0%nat, fromarray Sample.rgb); (1%nat, fromarray Sample.rgb')]
              ltac:(repeat constructor) Hn) as [H|H].
  - discriminate H.
  - exact H.
Defined.
